(** * hosts-server: the hosts detector ([pkg/hosts/hosts_detector.go])

    A shallow embedding of the resolution pipeline of the detector
    (latency probe with its process-wide cache, DNS source, candidate
    aggregation, best-address selection, orchestration and rendering),
    followed by the properties established about it.

    Conventions of the embedding.
    - A Go [string] is a [string] (a sequence of bytes); Go compares strings
      bytewise, as [String.compare] does.
    - A [float64] latency in milliseconds is a rational of [Q].  The detector
      only builds latencies as [float64(n)/1e6] or [float64(n)] for an integer
      [n] and only compares them, so no NaN arises and the order of the
      rationals is the order of the floats.
    - Everything the detector obtains from outside the process (DNS answers,
      the scraped page, echo replies, the domain file) is a field of a
      [World]; calls of the Go standard library whose result is not fixed by
      their contract are parameters as well.
    - Output on stdout and the log ([fmt.Printf], [log.Printf]) is left out. *)

From Stdlib Require Import QArith Sorted Permutation.
From stdpp Require Import gmap strings list list_monad fin_maps sorting.

(** ** Constants *)

Definition PingTimeoutSec : Z := 1.
Definition PingCount : Z := 3.
Definition MaxConcurrent : nat := 10.

Definition DiscardList : list string := ["1.0.1.1"; "1.2.1.1"; "127.0.0.1"].

Definition DNSServers : list string :=
  ["1.1.1.1:53"; "8.8.8.8:53"; "101.101.101.101:53"; "101.102.103.104:53"].

(** [float64(PingTimeoutSec * 1000)], the latency recorded for an address
    that could not be measured. *)
Definition timeoutLatency : Q := inject_Z (PingTimeoutSec * 1000).

(** The comparisons [<] and [>=] of [float64]. *)
Definition Qltb (x y : Q) : bool := negb (Qle_bool y x).
Definition Qgeb (x y : Q) : bool := Qle_bool y x.

(** ** [HostResult] *)

Record HostResult := mkHostResult {
  Domain : string;
  IP : string;
  Ping : Q;
  Error : string
}.

(** ** The sorts of the Go standard library

    [sort.Slice(x, less)] reorders [x] in place so that it is sorted
    according to [less]; its documentation does not promise stability.  The
    functions of the detector that call it take the sort as a parameter of
    type [SliceSorter].  [GoSort.Slice] below is the algorithm of the
    standard library since Go 1.19 (pattern-defeating quicksort,
    [pdqsort_func] in [sort/zsortfunc.go]), written over a list with the
    slice's [Less] and [Swap]; it is the instance used for executions. *)

Definition SliceSorter : Type := forall A : Type, (A -> A -> bool) -> list A -> list A.

Module GoSort.
Section WithLess.
Context {A : Type} (less : A -> A -> bool).

(** [data.Less(i, j)] and [data.Swap(i, j)] of [lessSwap].  The algorithm
    only uses indices of the slice; outside of it, where Go panics, [Less]
    is [false] and [Swap] does nothing. *)
Definition Less (data : list A) (i j : nat) : bool :=
  match data !! i, data !! j with
  | Some x, Some y => less x y
  | _, _ => false
  end.

Definition Swap (data : list A) (i j : nat) : list A :=
  match data !! i, data !! j with
  | Some x, Some y => <[i := y]> (<[j := x]> data)
  | _, _ => data
  end.

(** [for j := i; j > a && data.Less(j, j-1); j-- { data.Swap(j, j-1) }] *)
Fixpoint insertionShift (a j : nat) (data : list A) : list A :=
  match j with
  | O => data
  | S j' =>
      if (a <? j)%nat && Less data j j'
      then insertionShift a j' (Swap data j j')
      else data
  end.

Definition insertionSort_func (data : list A) (a b : nat) : list A :=
  fold_left (fun d i => insertionShift a i d) (seq (a + 1) (b - (a + 1))) data.

Fixpoint siftDown_loop (fuel : nat) (data : list A) (root hi first : nat) : list A :=
  match fuel with
  | O => data
  | S fuel' =>
      let child := (2 * root + 1)%nat in
      if (hi <=? child)%nat then data
      else
        let child :=
          if (child + 1 <? hi)%nat && Less data (first + child) (first + child + 1)
          then (child + 1)%nat else child in
        if negb (Less data (first + root) (first + child)) then data
        else siftDown_loop fuel' (Swap data (first + root) (first + child)) child hi first
  end.

Definition siftDown_func (data : list A) (lo hi first : nat) : list A :=
  siftDown_loop hi data lo hi first.

Definition heapSort_func (data : list A) (a b : nat) : list A :=
  let first := a in
  let lo := 0%nat in
  let hi := (b - a)%nat in
  let data :=
    fold_left (fun d i => siftDown_func d i hi first)
              (rev (seq 0 ((hi - 1) / 2 + 1))) data in
  fold_left (fun d i => siftDown_func (Swap d first (first + i)) lo i first)
            (rev (seq 0 hi)) data.

(** The two scans of [partition_func]: [for i <= j && data.Less(i, a) { i++ }]
    and [for i <= j && !data.Less(j, a) { j-- }]. *)
Fixpoint scanUp (fuel : nat) (stay : nat -> bool) (i j : nat) : nat :=
  match fuel with
  | O => i
  | S fuel' => if (i <=? j)%nat && stay i then scanUp fuel' stay (S i) j else i
  end.

Fixpoint scanDown (fuel : nat) (stay : nat -> bool) (i j : nat) : nat :=
  match fuel with
  | O => j
  | S fuel' => if (i <=? j)%nat && stay j then scanDown fuel' stay i (j - 1) else j
  end.

Fixpoint partition_loop (fuel : nat) (data : list A) (a i j : nat) : list A * nat :=
  match fuel with
  | O => (data, j)
  | S fuel' =>
      let i := scanUp (length data) (fun i => Less data i a) i j in
      let j := scanDown (length data) (fun j => negb (Less data j a)) i j in
      if (j <? i)%nat then (data, j)
      else partition_loop fuel' (Swap data i j) a (i + 1) (j - 1)
  end.

Definition partition_func (data : list A) (a b pivot : nat) : list A * nat * bool :=
  let data := Swap data a pivot in
  let i := (a + 1)%nat in
  let j := (b - 1)%nat in
  let i := scanUp (length data) (fun i => Less data i a) i j in
  let j := scanDown (length data) (fun j => negb (Less data j a)) i j in
  if (j <? i)%nat then (Swap data j a, j, true)
  else
    let data := Swap data i j in
    let '(data, j) := partition_loop (length data) data a (i + 1) (j - 1) in
    (Swap data j a, j, false).

Fixpoint partitionEqual_loop (fuel : nat) (data : list A) (a i j : nat) : list A * nat :=
  match fuel with
  | O => (data, i)
  | S fuel' =>
      let i := scanUp (length data) (fun i => negb (Less data a i)) i j in
      let j := scanDown (length data) (fun j => Less data a j) i j in
      if (j <? i)%nat then (data, i)
      else partitionEqual_loop fuel' (Swap data i j) a (i + 1) (j - 1)
  end.

Definition partitionEqual_func (data : list A) (a b pivot : nat) : list A * nat :=
  let data := Swap data a pivot in
  partitionEqual_loop (length data) data a (a + 1) (b - 1).

(** [partialInsertionSort_func]: the two shifts, then the scan of at most
    [maxSteps] out-of-order pairs. *)
Fixpoint shiftLeft (j : nat) (data : list A) : list A :=
  match j with
  | O => data
  | S j' => if negb (Less data j j') then data else shiftLeft j' (Swap data j j')
  end.

Fixpoint shiftRight (fuel j b : nat) (data : list A) : list A :=
  match fuel with
  | O => data
  | S fuel' =>
      if (j <? b)%nat
      then if negb (Less data j (j - 1)) then data
           else shiftRight fuel' (S j) b (Swap data j (j - 1))
      else data
  end.

Fixpoint partialInsertionSort_loop (steps : nat) (data : list A) (a b i : nat)
  : list A * bool :=
  match steps with
  | O => (data, false)
  | S steps' =>
      let i := scanUp (length data) (fun i => negb (Less data i (i - 1))) i (b - 1) in
      if (i =? b)%nat then (data, true)
      else if (b - a <? 50)%nat then (data, false)
      else
        let data := Swap data i (i - 1) in
        let data := if (2 <=? i - a)%nat then shiftLeft (i - 1) data else data in
        let data := if (2 <=? b - i)%nat then shiftRight (length data) (i + 1) b data else data in
        partialInsertionSort_loop steps' data a b i
  end.

Definition partialInsertionSort_func (data : list A) (a b : nat) : list A * bool :=
  partialInsertionSort_loop 5 data a b (a + 1).

(** [xorshift.Next] on a [uint64] (shifts 13, 7, 17) and [nextPowerOfTwo]. *)
Definition xorshift_Next (r : Z) : Z :=
  let r := Z.lxor r (Z.shiftl r 13 mod 2 ^ 64) in
  let r := Z.lxor r (Z.shiftr r 7) in
  Z.lxor r (Z.shiftl r 17 mod 2 ^ 64).

Definition bits_Len (n : nat) : nat :=
  match n with O => O | _ => S (Nat.log2 n) end.

Definition nextPowerOfTwo (length : nat) : Z := Z.shiftl 1 (Z.of_nat (bits_Len length)).

Fixpoint breakPatterns_loop (todo i : nat) (random : Z) (data : list A)
    (a idx length : nat) (modulus : Z) : list A :=
  match todo with
  | O => data
  | S todo' =>
      let random := xorshift_Next random in
      let other := Z.to_nat (Z.land random (modulus - 1)) in
      let other := if (length <=? other)%nat then (other - length)%nat else other in
      breakPatterns_loop todo' (S i) random (Swap data (idx + i) (a + other))
                         a idx length modulus
  end.

Definition breakPatterns_func (data : list A) (a b : nat) : list A :=
  let length := (b - a)%nat in
  if (8 <=? length)%nat then
    let idx := (a + (length / 4) * 2 - 1)%nat in
    breakPatterns_loop 3 0 (Z.of_nat length) data a idx length (nextPowerOfTwo length)
  else data.

(** [order2_func], [median_func], [medianAdjacent_func]: indices and the
    running count of swaps. *)
Definition order2_func (data : list A) (a b swaps : nat) : nat * nat * nat :=
  if Less data b a then (b, a, S swaps) else (a, b, swaps).

Definition median_func (data : list A) (a b c swaps : nat) : nat * nat :=
  let '(a, b, swaps) := order2_func data a b swaps in
  let '(b, c, swaps) := order2_func data b c swaps in
  let '(a, b, swaps) := order2_func data a b swaps in
  (b, swaps).

Definition medianAdjacent_func (data : list A) (a swaps : nat) : nat * nat :=
  median_func data (a - 1) a (a + 1) swaps.

Inductive sortedHint := unknownHint | increasingHint | decreasingHint.

Definition choosePivot_func (data : list A) (a b : nat) : nat * sortedHint :=
  let l := (b - a)%nat in
  let swaps := 0%nat in
  let i := (a + l / 4 * 1)%nat in
  let j := (a + l / 4 * 2)%nat in
  let k := (a + l / 4 * 3)%nat in
  let '(j, swaps) :=
    if (8 <=? l)%nat then
      let '(i, j, k, swaps) :=
        if (50 <=? l)%nat then
          let '(i, swaps) := medianAdjacent_func data i swaps in
          let '(j, swaps) := medianAdjacent_func data j swaps in
          let '(k, swaps) := medianAdjacent_func data k swaps in
          (i, j, k, swaps)
        else (i, j, k, swaps) in
      median_func data i j k swaps
    else (j, swaps) in
  if (swaps =? 0)%nat then (j, increasingHint)
  else if (swaps =? 4 * 3)%nat then (j, decreasingHint)
  else (j, unknownHint).

Fixpoint reverseRange_loop (fuel : nat) (data : list A) (i j : nat) : list A :=
  match fuel with
  | O => data
  | S fuel' =>
      if (i <? j)%nat then reverseRange_loop fuel' (Swap data i j) (i + 1) (j - 1)
      else data
  end.

Definition reverseRange_func (data : list A) (a b : nat) : list A :=
  reverseRange_loop (length data) data a (b - 1).

(** [pdqsort_func]: one unit of [fuel] per turn of its loop and per
    recursive call; a range of [n] elements needs at most [n + 1]. *)
Fixpoint pdqsort_loop (fuel : nat) (data : list A) (a b limit : nat)
    (wasBalanced wasPartitioned : bool) : list A :=
  match fuel with
  | O => data
  | S fuel' =>
      let length := (b - a)%nat in
      if (length <=? 12)%nat then insertionSort_func data a b
      else if (limit =? 0)%nat then heapSort_func data a b
      else
        let '(data, limit) :=
          if negb wasBalanced then (breakPatterns_func data a b, (limit - 1)%nat)
          else (data, limit) in
        let '(pivot, hint) := choosePivot_func data a b in
        let '(data, pivot, hint) :=
          match hint with
          | decreasingHint =>
              (reverseRange_func data a b, ((b - 1) - (pivot - a))%nat, increasingHint)
          | _ => (data, pivot, hint)
          end in
        let '(data, finished) :=
          match hint with
          | increasingHint =>
              if wasBalanced && wasPartitioned
              then partialInsertionSort_func data a b
              else (data, false)
          | _ => (data, false)
          end in
        if finished then data
        else if (0 <? a)%nat && negb (Less data (a - 1) pivot) then
          let '(data, mid) := partitionEqual_func data a b pivot in
          pdqsort_loop fuel' data mid b limit wasBalanced wasPartitioned
        else
          let '(data, mid, alreadyPartitioned) := partition_func data a b pivot in
          let leftLen := (mid - a)%nat in
          let rightLen := (b - mid)%nat in
          let balanceThreshold := (length / 8)%nat in
          if (leftLen <? rightLen)%nat then
            let data := pdqsort_loop fuel' data a mid limit true true in
            pdqsort_loop fuel' data (mid + 1) b limit
                         (balanceThreshold <=? leftLen)%nat alreadyPartitioned
          else
            let data := pdqsort_loop fuel' data (mid + 1) b limit true true in
            pdqsort_loop fuel' data a mid limit
                         (balanceThreshold <=? rightLen)%nat alreadyPartitioned
  end.

Definition pdqsort_func (data : list A) (a b limit : nat) : list A :=
  pdqsort_loop (S (b - a)) data a b limit true true.
End WithLess.

(** [sort.Slice(x, less)], with [less] read on the elements it indexes. *)
Definition Slice : SliceSorter := fun A less x =>
  let length := length x in
  let limit := bits_Len length in
  pdqsort_func less x 0 length limit.

(** [sort.Float64s] and [sort.Strings] sort plain values, where two
    elements that compare equal are the same value: their result is the one
    ascending arrangement of the input, whatever the algorithm, and is
    computed here by insertion. *)
Fixpoint insertAscending {A : Type} (leb : A -> A -> bool) (x : A) (l : list A) : list A :=
  match l with
  | [] => [x]
  | y :: l' => if leb x y then x :: l else y :: insertAscending leb x l'
  end.

Definition ascending {A : Type} (leb : A -> A -> bool) (l : list A) : list A :=
  foldr (insertAscending leb) [] l.

Definition Float64s : list Q -> list Q := ascending Qle_bool.
Definition Strings : list string -> list string := ascending String.leb.
End GoSort.

(** ** The world outside the process

    Answers of the network and of the file system may differ from one call
    to the next: each oracle also receives the clock of the call, the number
    of network operations the process has performed so far. *)

(** An answer record of a DNS reply: an [*dns.A] with the text of its
    address ([a.A.String()]), or a record of another type. *)
Inductive RR :=
  | RR_A (a : string)
  | RR_other.

Record World := mkWorld {
  (** [net.ParseIP(ip) != nil] *)
  net_ParseIP : string -> bool;
  (** [ping.NewPinger(ip)]: [Some err] when the pinger cannot be created.
      It only resolves the address, which for an address literal does not
      involve the network: it is a function of the address. *)
  ping_NewPinger : string -> option string;
  (** [pinger.Run()]: its error, and the round-trip times (nanoseconds) of
      the packets handed to [OnRecv], in order of arrival.  The pinger is
      set up for [PingCount] requests within [PingTimeoutSec] seconds. *)
  pinger_Run : string -> nat -> option string * list Z;
  (** [http.NewRequest("GET", url, nil)]: [Some err] when the request cannot
      be built (the URL does not parse).  It does not involve the network:
      it is a function of the URL. *)
  http_NewRequest : string -> option string;
  (** The visible text of the page that a request for a URL obtains
      ([client.Do], [goquery.NewDocumentFromReader] and [doc.Text]), or the
      error of the first of them that fails. *)
  http_Get : string -> nat -> string + string;
  (** [ipRegex.FindAllString(text, -1)] *)
  ipRegex_FindAllString : string -> list string;
  (** [c.Exchange(&m, server)] for an A question on the domain: the answer
      section, or [None] when it returns an error. *)
  dns_Exchange : string -> string -> nat -> option (list RR);
  (** [os.Open] and the scanner over the file: the lines it yields and
      [scanner.Err()], or the error of [os.Open]. *)
  os_Open : string -> nat -> (list string * option string) + string;
  (** [os.Create]: [Some err] when the file cannot be created. *)
  os_Create : string -> nat -> option string;
  (** [strings.TrimSpace] *)
  strings_TrimSpace : string -> string;
  (** [utf8.RuneCountInString], by which [fmt] measures a width. *)
  utf8_RuneCountInString : string -> nat
}.

(** The network operations, as the detector starts them: a call of
    [client.Do] with a request for a URL, a call of [c.Exchange] with the A
    question on a domain for a resolver, a call of [pinger.Run] for an
    address.  What a library does within such a call (whether and how often
    it sends a packet) is not part of the log. *)
Inductive Event :=
  | EvHTTP (url : string)
  | EvDNS (server domain : string)
  | EvPing (ip : string).

#[global] Instance Event_eq_dec : EqDecision Event.
Proof. solve_decision. Defined.

(** The state of the process: the latency cache [PingCache] (the mutex
    [PingMutex] makes each access to it atomic), the files it has written,
    and the list of the network operations it has performed. *)
Record State := mkState {
  PingCache : gmap string Q;
  files : gmap string string;
  trace : list Event
}.

Definition clock (s : State) : nat := length (trace s).

Definition emptyState : State := mkState ∅ ∅ [].

(** Computations of the detector: state passing. *)
Definition M (A : Type) : Type := State -> A * State.

#[global] Instance M_ret : MRet M := fun A x s => (x, s).
#[global] Instance M_bind : MBind M := fun A B f m s => let '(x, s') := m s in f x s'.

Definition now : M nat := fun s => (clock s, s).

Definition emit (e : Event) : M unit :=
  fun s => (tt, mkState (PingCache s) (files s) (trace s ++ [e])).

Definition cacheLookup (ip : string) : M (option Q) := fun s => (PingCache s !! ip, s).

Definition cacheStore (ip : string) (v : Q) : M unit :=
  fun s => (tt, mkState (<[ip := v]> (PingCache s)) (files s) (trace s)).

Definition fileStore (path content : string) : M unit :=
  fun s => (tt, mkState (PingCache s) (<[path := content]> (files s)) (trace s)).

(** The runs of echo requests to an address performed so far. *)
Definition probesOf (ip : string) (s : State) : nat :=
  length (filter (fun e => e = EvPing ip) (trace s)).

Section Detector.
Context (W : World) (sort_Slice : SliceSorter).

(** [float64(pkt.Rtt.Nanoseconds()) / 1e6] *)
Definition rttMilliseconds (rtt : Z) : Q := inject_Z rtt / 1000000.

(** *** [pingCached]

    The function is a call that is not interleaved with another call;
    calls made by several goroutines at once are taken up below
    ([callStep]). *)
Definition pingCached (ip : string) : M Q :=
  cached ← cacheLookup ip;
  match cached with
  | Some result => mret result
  | None =>
      match ping_NewPinger W ip with
      | Some err => mret timeoutLatency
      | None =>
          t ← now;
          _ ← emit (EvPing ip);
          let '(err, rtts) := pinger_Run W ip t in
          let pingTimes := map rttMilliseconds rtts in
          if bool_decide (err ≠ None) || (length pingTimes =? 0)%nat then
            _ ← cacheStore ip timeoutLatency;
            mret timeoutLatency
          else
            let pingTimes := GoSort.Float64s pingTimes in
            let median := nth (length pingTimes / 2) pingTimes 0%Q in
            _ ← cacheStore ip median;
            mret median
      end
  end.

(** *** [selectBestIP] *)
Record ipPing := mkIpPing { ipPing_IP : string; ipPing_Ping : Q }.

Definition ipPing_less (x y : ipPing) : bool := Qltb (ipPing_Ping x) (ipPing_Ping y).

(** The loop that probes every candidate. *)
Definition probeAll (ipList : list string) : M (list ipPing) :=
  mapM (fun ip => pingTime ← pingCached ip; mret (mkIpPing ip pingTime)) ipList.

(** [results[0]] is in range when the list of candidates is not empty,
    as sorting in place keeps the length. *)
Definition selectBestIP (ipList : list string) : M string :=
  if (length ipList =? 0)%nat then mret ""
  else
    results ← probeAll ipList;
    let results := sort_Slice ipPing ipPing_less results in
    mret (match results with
          | best :: _ => ipPing_IP best
          | [] => ""
          end).

(** *** [getIPFromWeb]

    When the request cannot be built, the function returns before
    [client.Do] is called. *)
Definition getIPFromWeb (domain : string) : M (list string * option string) :=
  let url := "https://sites.ipaddress.com/" +:+ domain in
  match http_NewRequest W url with
  | Some err => mret ([], Some err)
  | None =>
      t ← now;
      _ ← emit (EvHTTP url);
      match http_Get W url t with
      | inr err => mret ([], Some err)
      | inl text => mret (ipRegex_FindAllString W text, None)
      end
  end.

(** *** [getIPFromDNS] *)
Definition answerAddresses (answer : list RR) : list string :=
  omap (fun ans => match ans with RR_A a => Some a | RR_other => None end) answer.

Fixpoint getIPFromDNS_loop (servers : list string) (domain : string)
    (allIPs : list string) : M (list string) :=
  match servers with
  | [] => mret allIPs
  | server :: servers' =>
      t ← now;
      _ ← emit (EvDNS server domain);
      match dns_Exchange W server domain t with
      | None => getIPFromDNS_loop servers' domain allIPs
      | Some answer =>
          let allIPs := allIPs ++ answerAddresses answer in
          if (0 <? length allIPs)%nat then mret allIPs
          else getIPFromDNS_loop servers' domain allIPs
      end
  end.

Definition getIPFromDNS (domain : string) : M (list string * option string) :=
  allIPs ← getIPFromDNS_loop DNSServers domain [];
  mret (allIPs, None).

(** *** [getBestIP]

    The two sources run in two goroutines that share nothing and are both
    awaited: they are taken one after the other.  [ipSet], a
    [map[string]bool] that only ever holds [true], is a set. *)
Definition discarded (ip : string) : bool :=
  existsb (fun discardIP => String.eqb ip discardIP) DiscardList.

Definition collectCandidates (ips : list string) : gset string :=
  foldl (fun ipSet ip =>
           if negb (discarded ip) && net_ParseIP W ip then {[ ip ]} ∪ ipSet else ipSet)
        ∅ ips.

Definition getBestIP (domain : string) : M (string * option string) :=
  '(webIPs, _) ← getIPFromWeb domain;
  '(dnsIPs, _) ← getIPFromDNS domain;
  let ipSet := collectCandidates (webIPs ++ dnsIPs) in
  if (size ipSet =? 0)%nat then mret ("", Some "未找到有效IP地址")
  else
    let ipList := GoSort.Strings (elements ipSet) in
    bestIP ← selectBestIP ipList;
    mret (bestIP, None).

(** *** [processHost]: the result it sends on [resultChan] *)
Definition processHost (domain : string) : M HostResult :=
  '(ip, err) ← getBestIP domain;
  match err with
  | Some e => mret (mkHostResult domain "# IP Address Not Found" 0 e)
  | None =>
      ping ← pingCached ip;
      mret (mkHostResult domain ip ping "")
  end.

(** *** The two renderers

    [currentTime] is the value of [time.Now().Format("2006-01-02 15:04:05")]
    that the call reads.  [padRight] is the verb [%-30s]: the string, then
    spaces up to the width counted in runes.  Errors of the writes to the
    created file, which the code does not look at, are left out. *)
Record HostsDetector := mkHostsDetector {
  domainFile : string;
  outputFile : string
}.

Definition newline : string := String (Ascii.ascii_of_nat 10) "".

Fixpoint spaces (n : nat) : string :=
  match n with
  | O => ""
  | S n' => " " +:+ spaces n'
  end.

Definition padRight (width : nat) (s : string) : string :=
  s +:+ spaces (width - utf8_RuneCountInString W s).

Definition WriteHostsFile (hd : HostsDetector) (currentTime : string)
    (results : list HostResult) : M (option string) :=
  t ← now;
  match os_Create W (outputFile hd) t with
  | Some err => mret (Some err)
  | None =>
      let writer := "" in
      let writer := writer +:+ "# Hosts" +:+ newline in
      let writer := writer +:+ "# 更新时间: " +:+ currentTime +:+ newline in
      let writer := writer +:+ "# 项目地址: https://github.com/ineo6/hosts" +:+ newline in
      let writer := writer +:+ newline in
      let writer :=
        foldl (fun writer result =>
                 let line := padRight 30 (IP result) +:+ " " +:+ Domain result in
                 let line :=
                   if Qgeb (Ping result) (inject_Z (PingTimeoutSec * 1000))
                   then line +:+ "  # Timeout" else line in
                 writer +:+ line +:+ newline)
              writer results in
      _ ← fileStore (outputFile hd) writer;
      mret None
  end.

Definition GenerateHostsContent (hd : HostsDetector) (currentTime : string)
    (results : list HostResult) : string :=
  let content := "" in
  let content := content +:+ ("# Hosts" +:+ newline) in
  let content := content +:+ ("# 更新时间: " +:+ currentTime +:+ newline) in
  let content := content +:+ ("# 项目地址: https://github.com/ineo6/hosts" +:+ newline) in
  let content := content +:+ newline in
  foldl (fun content result =>
           let line := padRight 30 (IP result) +:+ " " +:+ Domain result in
           let line :=
             if Qgeb (Ping result) (inject_Z (PingTimeoutSec * 1000))
             then line +:+ "  # Timeout" else line in
           content +:+ (line +:+ newline))
        content results.

(** *** [readDomainFile]: the loop over the scanned lines, and the call *)
Definition scanDomains (lines : list string) : list string :=
  foldl (fun domains text =>
           let line := strings_TrimSpace W text in
           if String.eqb line "" || String.prefix "#" line then domains
           else
             let line :=
               match String.index 0 "#" line with
               | Some idx => strings_TrimSpace W (String.substring 0 idx line)
               | None => line
               end in
             if negb (String.eqb line "") then domains ++ [line] else domains)
        [] lines.

Definition readDomainFile (hd : HostsDetector) : M (list string * option string) :=
  t ← now;
  match os_Open W (domainFile hd) t with
  | inr err => mret ([], Some err)
  | inl (lines, scanErr) => mret (scanDomains lines, scanErr)
  end.

(** *** [DetectHosts]

    The worker goroutines deliver their results on [resultChan] in the order
    in which they get through [processHost].  That order is the scheduler's:
    [choices] lists, for each delivery, which of the tasks still pending
    (counted in the order of the domain list, modulo their number) delivers
    next.  Every order of delivery is obtained for some [choices]. *)
Fixpoint deliveryOrder {A : Type} (fuel : nat) (choices : list nat) (pending : list A)
    : list A :=
  match fuel with
  | O => []
  | S fuel' =>
      let i := (hd 0%nat choices mod length pending)%nat in
      match pending !! i with
      | Some x => x :: deliveryOrder fuel' (tl choices) (delete i pending)
      | None => []
      end
  end.

Definition domainOrderOf (domains : list string) : gmap string nat :=
  foldl (fun domainOrder '(i, domain) => <[domain := i]> domainOrder)
        ∅ (zip (seq 0 (length domains)) domains).

Definition HostResult_less (domainOrder : gmap string nat) (x y : HostResult) : bool :=
  (default 0%nat (domainOrder !! Domain x) <? default 0%nat (domainOrder !! Domain y))%nat.

Definition DetectHosts (hd : HostsDetector) (choices : list nat)
    : M (list HostResult * option string) :=
  '(domains, err) ← readDomainFile hd;
  match err with
  | Some e => mret ([], Some ("读取域名文件失败: " +:+ e))
  | None =>
      if (length domains =? 0)%nat then mret ([], Some "域名文件为空")
      else
        results ← mapM processHost (deliveryOrder (length domains) choices domains);
        let domainOrder := domainOrderOf domains in
        let results := sort_Slice HostResult (HostResult_less domainOrder) results in
        mret (results, None)
  end.
End Detector.

(** ** The worker pool of [DetectHosts]

    One goroutine per domain; each sends a token on [semaphore] (a channel
    with [MaxConcurrent] places), runs [processHost], which sends the result
    on [resultChan] (a channel with one place per domain), and takes a token
    back.  The main goroutine receives from [resultChan].  A [Pool] records
    where every goroutine stands and what the two channels hold; an [Action]
    is one step of one goroutine, enabled as the channel operations of Go
    are: a send needs a free place, a receive needs an element. *)
Inductive Phase :=
  | Waiting      (* started, before [semaphore <- struct{}{}] has gone through *)
  | Processing   (* holds a token: inside [processHost], before its send *)
  | Reported     (* result sent, before [<-semaphore] *)
  | Finished.    (* token given back *)

#[global] Instance Phase_eq_dec : EqDecision Phase.
Proof. solve_decision. Defined.

Record Pool := mkPool {
  capacity : nat;                    (* [len(domains)], the places of [resultChan] *)
  unspawned : list string;           (* domains the [for] loop has not reached *)
  tasks : list (string * Phase);
  semaphore : nat;                   (* tokens held by the channel *)
  resultChan : list string;          (* domains of the results in the channel *)
  collected : list string            (* domains of the results received by [range] *)
}.

Inductive Action :=
  | Spawn
  | Acquire (i : nat)
  | Report (i : nat)
  | Release (i : nat)
  | Collect.

Definition initialPool (domains : list string) : Pool :=
  mkPool (length domains) domains [] 0 [] [].

Definition setPhase (i : nat) (ph : Phase) (p : Pool) : list (string * Phase) :=
  match tasks p !! i with
  | Some (d, _) => <[i := (d, ph)]> (tasks p)
  | None => tasks p
  end.

Definition poolStep (a : Action) (p : Pool) : option Pool :=
  match a with
  | Spawn =>
      match unspawned p with
      | d :: ds =>
          Some (mkPool (capacity p) ds (tasks p ++ [(d, Waiting)])
                       (semaphore p) (resultChan p) (collected p))
      | [] => None
      end
  | Acquire i =>
      match tasks p !! i with
      | Some (d, Waiting) =>
          if (semaphore p <? MaxConcurrent)%nat
          then Some (mkPool (capacity p) (unspawned p) (setPhase i Processing p)
                            (S (semaphore p)) (resultChan p) (collected p))
          else None
      | _ => None
      end
  | Report i =>
      match tasks p !! i with
      | Some (d, Processing) =>
          if (length (resultChan p) <? capacity p)%nat
          then Some (mkPool (capacity p) (unspawned p) (setPhase i Reported p)
                            (semaphore p) (resultChan p ++ [d]) (collected p))
          else None
      | _ => None
      end
  | Release i =>
      match tasks p !! i with
      | Some (d, Reported) =>
          if (0 <? semaphore p)%nat
          then Some (mkPool (capacity p) (unspawned p) (setPhase i Finished p)
                            (semaphore p - 1) (resultChan p) (collected p))
          else None
      | _ => None
      end
  | Collect =>
      match resultChan p with
      | d :: rest =>
          Some (mkPool (capacity p) (unspawned p) (tasks p)
                       (semaphore p) rest (collected p ++ [d]))
      | [] => None
      end
  end.

(** A run: the pool after a sequence of steps, [None] if one of them is not
    enabled when its turn comes. *)
Fixpoint poolRun (actions : list Action) (p : Pool) : option Pool :=
  match actions with
  | [] => Some p
  | a :: actions' =>
      match poolStep a p with
      | Some p' => poolRun actions' p'
      | None => None
      end
  end.

Definition countPhase (ph : Phase) (ts : list (string * Phase)) : nat :=
  length (filter (fun t => t.2 = ph) ts).

(** The number of goroutines of the pool that are in a phase. *)
Definition inPhase (ph : Phase) (p : Pool) : nat := countPhase ph (tasks p).

(** ** A world and a detector for executions *)

Definition quietWorld : World :=
  mkWorld (fun _ => true) (fun _ => None) (fun _ _ => (None, []))
          (fun _ => None) (fun _ _ => inr "offline") (fun _ => []) (fun _ _ _ => None)
          (fun _ _ => inr "no such file") (fun _ _ => None)
          (fun s => s) String.length.

Definition detector : HostsDetector := mkHostsDetector "domain.txt" "hosts".

(** ** Notions used in the statements *)

(** The value a real probe settles on, from what [pinger.Run] returned. *)
Definition measured (run : option string * list Z) : Q :=
  let pingTimes := map rttMilliseconds run.2 in
  if bool_decide (run.1 ≠ None) || (length pingTimes =? 0)%nat then timeoutLatency
  else nth (length pingTimes / 2) (GoSort.Float64s pingTimes) 0%Q.

Definition countIf {A : Type} (f : A -> bool) (l : list A) : nat :=
  length (List.filter f l).

(** [m] is a median of the samples [l]: it is one of them, at least half of
    them are at most [m], and at least half of them are at least [m]. *)
Definition isMedian (m : Q) (l : list Q) : Prop :=
  In m l /\
  (length l <= 2 * countIf (fun x => Qle_bool x m) l)%nat /\
  (length l <= 2 * countIf (fun x => Qle_bool m x) l)%nat.

(** What [sort.Slice] promises of one call: the slice afterwards holds the
    elements it held before, and none of them is [less] than its
    predecessor. *)
Definition SortsSlice {A : Type} (less : A -> A -> bool) (before after : list A) : Prop :=
  Permutation before after /\ Sorted (fun x y => less y x = false) after.

(** The candidate that a rule "smallest latency, the first seen wins a tie"
    designates among probed candidates. *)
Fixpoint firstFastest (results : list ipPing) : option ipPing :=
  match results with
  | [] => None
  | r :: rest =>
      match firstFastest rest with
      | Some best => if Qltb (ipPing_Ping best) (ipPing_Ping r) then Some best else Some r
      | None => Some r
      end
  end.

(** A world in which every address answers its echo requests, with the
    round-trip times of [rtts]. *)
Definition answeringWorld (rtts : string -> list Z) : World :=
  mkWorld (fun _ => true) (fun _ => None) (fun ip _ => (None, rtts ip))
          (fun _ => None) (fun _ _ => inr "offline") (fun _ => []) (fun _ _ _ => None)
          (fun _ _ => inr "no such file") (fun _ _ => None)
          (fun s => s) String.length.

(** A world in which [pinger.Run] reports an error after one reply of 5 ms
    has been received. *)
Definition failingRunWorld : World :=
  mkWorld (fun _ => true) (fun _ => None)
          (fun _ _ => (Some "read udp: connection refused", [5000000%Z]))
          (fun _ => None) (fun _ _ => inr "offline") (fun _ => []) (fun _ _ _ => None)
          (fun _ _ => inr "no such file") (fun _ _ => None)
          (fun s => s) String.length.

(** Thirteen candidates in lexicographic order; three of them answer in
    10 ms, one in 15 ms, the others in 20 ms. *)
Definition thirteenCandidates : list string :=
  ["10.0.0.10"; "10.0.0.11"; "10.0.0.12"; "10.0.0.13"; "10.0.0.14"; "10.0.0.15";
   "10.0.0.16"; "10.0.0.17"; "10.0.0.18"; "10.0.0.19"; "10.0.0.20"; "10.0.0.21";
   "10.0.0.22"].

Definition thirteenRtts (ip : string) : list Z :=
  if bool_decide (ip ∈ ["10.0.0.10"; "10.0.0.13"; "10.0.0.16"]) then [10000000%Z]
  else if String.eqb ip "10.0.0.22" then [15000000%Z]
  else [20000000%Z].

(** The A-record addresses that each resolver of [servers] gives for
    [domain] when they are asked one after the other from clock [t] on; a
    resolver whose query fails gives none. *)
Fixpoint resolverAnswers (W : World) (servers : list string) (domain : string) (t : nat)
    : list (list string) :=
  match servers with
  | [] => []
  | server :: servers' =>
      match dns_Exchange W server domain t with
      | None => []
      | Some answer => answerAddresses answer
      end :: resolverAnswers W servers' domain (S t)
  end.

Definition dnsQueries (servers : list string) (domain : string) : list Event :=
  map (fun server => EvDNS server domain) servers.

(** What the two sources answer when [getBestIP] asks them for [domain] in
    state [s], the state once both have answered, and the set of
    candidates kept from their answers. *)
Definition webAnswer (W : World) (domain : string) (s : State) : list string :=
  (getIPFromWeb W domain s).1.1.

Definition dnsAnswer (W : World) (domain : string) (s : State) : list string :=
  (getIPFromDNS W domain (getIPFromWeb W domain s).2).1.1.

Definition afterSources (W : World) (domain : string) (s : State) : State :=
  (getIPFromDNS W domain (getIPFromWeb W domain s).2).2.

Definition candidatesOf (W : World) (domain : string) (s : State) : gset string :=
  collectCandidates W (webAnswer W domain s ++ dnsAnswer W domain s).

(** A world with both sources: the page of a domain lists four addresses,
    one of them denylisted and one that does not parse, the first resolver
    fails and the second gives one address; [10.0.0.22] answers fastest. *)
Definition sampleWorld : World :=
  mkWorld (fun ip => negb (String.eqb ip "999.1.1.1")) (fun _ => None)
          (fun ip _ => (None, thirteenRtts ip))
          (fun _ => None) (fun _ _ => inl "page")
          (fun _ => ["10.0.0.21"; "127.0.0.1"; "999.1.1.1"; "10.0.0.21"])
          (fun server _ _ =>
             if String.eqb server "8.8.8.8:53" then Some [RR_other; RR_A "10.0.0.22"]
             else None)
          (fun _ _ => inl (["a.example"; "# comment"; "b.example"], None))
          (fun _ _ => None)
          (fun s => s) String.length.

(** The header block of the rendered text, and a data line with or without
    the timeout comment. *)
Definition headerBlock (currentTime : string) : string :=
  "# Hosts" +:+ newline +:+
  "# 更新时间: " +:+ currentTime +:+ newline +:+
  "# 项目地址: https://github.com/ineo6/hosts" +:+ newline +:+
  newline.

Definition dataLine (W : World) (timedOut : bool) (result : HostResult) : string :=
  padRight W 30 (IP result) +:+ " " +:+ Domain result +:+
  (if timedOut then "  # Timeout" else "") +:+ newline.

(** A result whose latency, 1500 ms, is above the timeout value. *)
Definition slowResult : HostResult := mkHostResult "a.example" "10.0.0.1" 1500 "".

(** A world whose domain file lists [a.example] twice, around [b.example];
    the network is down. *)
Definition duplicateDomainWorld : World :=
  mkWorld (fun _ => true) (fun _ => None) (fun _ _ => (None, []))
          (fun _ => None) (fun _ _ => inr "offline") (fun _ => []) (fun _ _ _ => None)
          (fun _ _ => inl (["a.example"; "b.example"; "a.example"], None))
          (fun _ _ => None)
          (fun s => s) String.length.

(** A world whose domain file lists [a.example] and [%zz]; no request can
    be built for the URL of the second, and the network is down. *)
Definition malformedWorld : World :=
  mkWorld (fun _ => true) (fun _ => None) (fun _ _ => (None, []))
          (fun url =>
             if String.eqb url "https://sites.ipaddress.com/%zz"
             then Some "invalid URL escape" else None)
          (fun _ _ => inr "offline") (fun _ => []) (fun _ _ _ => None)
          (fun _ _ => inl (["a.example"; "%zz"], None))
          (fun _ _ => None)
          (fun s => s) String.length.

(** Eleven domains, and the run in which all their goroutines are started
    and the first ten get a token. *)
Definition elevenDomains : list string :=
  ["d0"; "d1"; "d2"; "d3"; "d4"; "d5"; "d6"; "d7"; "d8"; "d9"; "d10"].

Definition fullLoad : list Action :=
  replicate 11 Spawn ++ map Acquire (seq 0 10).

(** What every reachable pool satisfies: the goroutines between their send
    on [semaphore] and their receive from it are as many as the tokens the
    channel holds, and the channel never holds more than its places. *)
Definition poolInvariant (p : Pool) : Prop :=
  (inPhase Processing p + inPhase Reported p = semaphore p)%nat /\
  (semaphore p <= MaxConcurrent)%nat.

(** The order key that [DetectHosts] gives a domain. *)
Definition orderKey (domains : list string) (d : string) : nat :=
  default 0%nat (domainOrderOf domains !! d).

(** ** The callers of the detector *)

Section Callers.
Context (W : World) (sort_Slice : SliceSorter).

(** *** [DetectAndSave]

    [currentTime] is the timestamp that its call of [WriteHostsFile]
    reads. *)
Definition DetectAndSave (hd : HostsDetector) (choices : list nat) (currentTime : string)
    : M (option string) :=
  '(results, err) ← DetectHosts W sort_Slice hd choices;
  match err with
  | Some e => mret (Some e)
  | None =>
      err ← WriteHostsFile W hd currentTime results;
      match err with
      | Some e => mret (Some ("写入hosts文件失败: " +:+ e))
      | None => mret None
      end
  end.

(** *** [GetHostsContent] *)
Definition GetHostsContent (hd : HostsDetector) (choices : list nat) (currentTime : string)
    : M (string * option string) :=
  '(results, err) ← DetectHosts W sort_Slice hd choices;
  match err with
  | Some e => mret ("", Some e)
  | None => mret (GenerateHostsContent W hd currentTime results, None)
  end.

(** *** The service ([HostsService]): [getHosts] and [Start]

    What a handler hands to [c.JSON] and [c.Header]: the status, the headers
    it sets itself, and the [Response] that is encoded as the body. *)
Record HostsResponse := mkHostsResponse {
  Content : string;
  Results : list HostResult;
  UpdatedAt : string;
  Total : nat;
  Success : nat
}.

Record Response := mkResponse {
  Code : nat;
  Message : string;
  Data : option HostsResponse
}.

Record Reply := mkReply {
  replyStatus : nat;
  replyHeaders : list (string * string);
  replyBody : Response
}.

(** The loop that counts the results without an error. *)
Definition countSuccess (results : list HostResult) : nat :=
  foldl (fun successCount result =>
           if String.eqb (Error result) "" then S successCount else successCount)
        0%nat results.

(** [contentTime], [saveTime] and [updatedAt] are the three timestamps read
    by [GenerateHostsContent], by [WriteHostsFile] and for [UpdatedAt]. *)
Definition getHosts (hd : HostsDetector) (choices : list nat)
    (contentTime saveTime updatedAt : string) : M Reply :=
  '(results, err) ← DetectHosts W sort_Slice hd choices;
  match err with
  | Some e => mret (mkReply 500 [] (mkResponse 500 ("检测hosts失败: " +:+ e) None))
  | None =>
      let content := GenerateHostsContent W hd contentTime results in
      let successCount := countSuccess results in
      saveErr ← WriteHostsFile W hd saveTime results;
      let headers :=
        match saveErr with
        | Some e => [("X-Save-Error", e)]
        | None => []
        end in
      let response :=
        mkHostsResponse content results updatedAt (length results) successCount in
      mret (mkReply 200 headers (mkResponse 200 "获取hosts成功" (Some response)))
  end.

(** The address that [Start] passes to [router.Run]; [port[0] != ':'] is
    read on a port that is not empty. *)
Definition listenAddress (port : string) : string :=
  let port := if String.eqb port "" then ":8080" else port in
  if negb (String.prefix ":" port) then ":" +:+ port else port.
End Callers.

(** ** Counting the network operations of a state *)

Definition isHTTP (e : Event) : bool :=
  match e with EvHTTP _ => true | _ => false end.

Definition isDNS (e : Event) : bool :=
  match e with EvDNS _ _ => true | _ => false end.

Definition isPing (e : Event) : bool :=
  match e with EvPing _ => true | _ => false end.

Definition httpRequests (s : State) : nat := length (List.filter isHTTP (trace s)).

(** Whether [http.NewRequest] accepts the URL that [getIPFromWeb] builds for
    a domain, and the calls of [client.Do] that [getIPFromWeb] then makes. *)
Definition requestBuilt (W : World) (domain : string) : bool :=
  match http_NewRequest W ("https://sites.ipaddress.com/" +:+ domain) with
  | None => true
  | Some _ => false
  end.

Definition webRequests (W : World) (domain : string) : list Event :=
  if requestBuilt W domain
  then [EvHTTP ("https://sites.ipaddress.com/" +:+ domain)] else [].

Definition dnsQueriesMade (s : State) : nat := length (List.filter isDNS (trace s)).

(** A string without the character [#]. *)
Definition hashFree (s : string) : Prop := String.index 0 "#" s = None.

(** The data line of a result, as both renderers write it. *)
Definition renderedLine (W : World) (r : HostResult) : string :=
  dataLine W (Qle_bool timeoutLatency (Ping r)) r.

Definition hashChar : Ascii.ascii := Ascii.ascii_of_nat 35.

(** ** Accounting of the results in the worker pool *)

(** The domains of the goroutines that have sent their result. *)
Definition sentResults (ts : list (string * Phase)) : list string :=
  map fst (filter (fun t => t.2 = Reported \/ t.2 = Finished) ts).

(** What every reachable pool of a pass over [domains] satisfies besides
    [poolInvariant]: [resultChan] has one place per domain, the goroutines
    started and those still to start are the domains in order, and the
    results received or waiting in the channel are those that were sent. *)
Definition poolLedger (domains : list string) (p : Pool) : Prop :=
  capacity p = length domains /\
  map fst (tasks p) ++ unspawned p = domains /\
  Permutation (collected p ++ resultChan p) (sentResults (tasks p)).

(** The pass is over: every goroutine was started and has given its token
    back, and [resultChan] is drained. *)
Definition poolDone (p : Pool) : Prop :=
  unspawned p = [] /\ resultChan p = [] /\ Forall (fun t => t.2 = Finished) (tasks p).

(** A complete run of a pass over three domains. *)
Definition threeDomains : list string := ["a.example"; "b.example"; "c.example"].

Definition completeRun : list Action :=
  [Spawn; Spawn; Acquire 0; Spawn; Acquire 2; Report 2; Acquire 1; Collect;
   Report 0; Release 2; Report 1; Collect; Release 0; Collect; Release 1].

(** ** Calls of [pingCached] that overlap

    [pingCached] holds [PingMutex] while it reads the cache (lines 92-97)
    and while it writes to it (lines 119-121 and 131-133), and not in
    between.  A call is therefore up to three atomic steps: the check of
    the cache, the probe ([ping.NewPinger] and [pinger.Run], without the
    lock), and the store.  The steps of the calls made by different
    goroutines can be interleaved in any way; a schedule gives, step by
    step, the index of the call that moves.  The function [pingCached]
    above is a call whose steps are taken without another call in between
    (lemma [pingCached_alone]). *)
Inductive Call :=
  | AtCheck (ip : string)           (* called, before the read of the cache *)
  | AtProbe (ip : string)           (* no entry was found, before [ping.NewPinger] *)
  | AtStore (ip : string) (v : Q)   (* [pinger.Run] has returned, before the store *)
  | Returned (ip : string) (v : Q). (* has returned [v] *)

Definition callAddress (c : Call) : string :=
  match c with
  | AtCheck ip | AtProbe ip | AtStore ip _ | Returned ip _ => ip
  end.

Section Calls.
Context (W : World).

Definition callStep (c : Call) : M Call :=
  match c with
  | AtCheck ip =>
      cached ← cacheLookup ip;
      match cached with
      | Some result => mret (Returned ip result)
      | None => mret (AtProbe ip)
      end
  | AtProbe ip =>
      match ping_NewPinger W ip with
      | Some err => mret (Returned ip timeoutLatency)
      | None =>
          t ← now;
          _ ← emit (EvPing ip);
          let '(err, rtts) := pinger_Run W ip t in
          let pingTimes := map rttMilliseconds rtts in
          if bool_decide (err ≠ None) || (length pingTimes =? 0)%nat then
            mret (AtStore ip timeoutLatency)
          else
            let pingTimes := GoSort.Float64s pingTimes in
            let median := nth (length pingTimes / 2) pingTimes 0%Q in
            mret (AtStore ip median)
      end
  | AtStore ip v =>
      _ ← cacheStore ip v;
      mret (Returned ip v)
  | Returned ip v => mret (Returned ip v)
  end.

(** One step of the call with index [i]; an index without a call, like a
    call that has returned, leaves everything as it is. *)
Definition stepCall (i : nat) (calls : list Call) : M (list Call) :=
  match calls !! i with
  | Some c => c' ← callStep c; mret (<[i := c']> calls)
  | None => mret calls
  end.

Fixpoint runCalls (schedule : list nat) (calls : list Call) : M (list Call) :=
  match schedule with
  | [] => mret calls
  | i :: schedule' => calls' ← stepCall i calls; runCalls schedule' calls'
  end.
End Calls.

(** The address has an entry in the cache, or no pinger can be created for
    it: a call of [pingCached] for it will not reach [pinger.Run]. *)
Definition settled (W : World) (ip : string) (s : State) : Prop :=
  is_Some (PingCache s !! ip) \/ ping_NewPinger W ip <> None.


(** A call for [ip] that has not yet passed the point where it may call
    [pinger.Run], and the number of such calls. *)
Definition awaitsProbe (ip : string) (c : Call) : bool :=
  match c with
  | AtCheck ip' | AtProbe ip' => String.eqb ip' ip
  | AtStore _ _ | Returned _ _ => false
  end.

Definition pendingProbes (ip : string) (calls : list Call) : nat :=
  countIf (awaitsProbe ip) calls.

(** What a call that has returned leaves behind. *)
Definition returnedSettled (W : World) (s : State) (c : Call) : Prop :=
  match c with
  | Returned ip v => settled W ip s
  | _ => True
  end.



(** A call for [ip] that cannot reach [pinger.Run] any more. *)
Definition pastProbe (W : World) (ip : string) (c : Call) : Prop :=
  c = AtCheck ip \/ (c = AtProbe ip /\ ping_NewPinger W ip <> None) \/
  exists v, c = Returned ip v.


(** The steps a call has still to take before it returns, at most. *)
Definition stepsLeft (c : Call) : nat :=
  match c with
  | AtCheck _ => 3
  | AtProbe _ => 2
  | AtStore _ _ => 1
  | Returned _ _ => 0
  end.

(** * Properties *)

(** ** The latency probe *)

Section ProbeFacts.
Context (W : World).

Lemma pingCached_hit (ip : string) (s : State) (v : Q) :
  PingCache s !! ip = Some v -> pingCached W ip s = (v, s).
Proof.
  intros Hhit. unfold pingCached, mbind, M_bind, cacheLookup. simpl.
  rewrite Hhit. reflexivity.
Qed.

Lemma pingCached_no_pinger (ip : string) (s : State) (err : string) :
  PingCache s !! ip = None -> ping_NewPinger W ip = Some err ->
  pingCached W ip s = (timeoutLatency, s).
Proof.
  intros Hmiss Herr. unfold pingCached, mbind, M_bind, cacheLookup. simpl.
  rewrite Hmiss, Herr. reflexivity.
Qed.

Lemma Float64s_length (l : list Q) : length (GoSort.Float64s l) = length l.
Proof.
  unfold GoSort.Float64s, GoSort.ascending.
  induction l as [|x l IH]; simpl; [reflexivity|].
  rewrite <- IH. generalize (foldr (GoSort.insertAscending Qle_bool) [] l).
  intros k. induction k as [|y k IHk]; simpl; [reflexivity|].
  destruct (Qle_bool x y); simpl; [reflexivity|]. now rewrite IHk.
Qed.

Lemma pingCached_probe (ip : string) (s : State) :
  PingCache s !! ip = None -> ping_NewPinger W ip = None ->
  pingCached W ip s =
    (measured (pinger_Run W ip (clock s)),
     mkState (<[ip := measured (pinger_Run W ip (clock s))]> (PingCache s))
             (files s) (trace s ++ [EvPing ip])).
Proof.
  intros Hmiss Hnew. unfold pingCached, measured, mbind, M_bind, cacheLookup, now, emit.
  simpl. rewrite Hmiss, Hnew.
  destruct (pinger_Run W ip (clock s)) as [err rtts]. simpl.
  destruct (bool_decide (err ≠ None) || (length (map rttMilliseconds rtts) =? 0)%nat);
    simpl; [reflexivity|].
  rewrite Float64s_length. reflexivity.
Qed.

Lemma probesOf_emit_ping (ip : string) (c : gmap string Q) (f : gmap string string)
    (tr : list Event) :
  probesOf ip (mkState c f (tr ++ [EvPing ip])) = S (probesOf ip (mkState c f tr)).
Proof.
  unfold probesOf. simpl. rewrite filter_app, length_app. simpl.
  rewrite filter_cons_True by reflexivity. simpl. lia.
Qed.

Lemma pingCached_keeps (ip k : string) (v : Q) (s : State) :
  PingCache s !! k = Some v -> PingCache (pingCached W ip s).2 !! k = Some v.
Proof.
  intros Hk. destruct (PingCache s !! ip) as [u|] eqn:Hcache.
  - now rewrite (pingCached_hit ip s u Hcache).
  - destruct (ping_NewPinger W ip) as [err|] eqn:Hnew.
    + now rewrite (pingCached_no_pinger ip s err Hcache Hnew).
    + rewrite (pingCached_probe ip s Hcache Hnew). simpl.
      rewrite lookup_insert_ne; [assumption|]. intros ->. congruence.
Qed.

Lemma pingCached_cached (ip : string) (s : State) :
  ping_NewPinger W ip = None -> is_Some (PingCache (pingCached W ip s).2 !! ip).
Proof.
  intros Hnew. destruct (PingCache s !! ip) as [u|] eqn:Hcache.
  - rewrite (pingCached_hit ip s u Hcache). simpl. rewrite Hcache. now eexists.
  - rewrite (pingCached_probe ip s Hcache Hnew). simpl.
    rewrite lookup_insert_eq. now eexists.
Qed.
End ProbeFacts.

(** ** Calls of [pingCached] that overlap *)

Lemma probesOf_emit_other (ip k : string) (c : gmap string Q) (f : gmap string string)
    (tr : list Event) :
  k <> ip -> probesOf k (mkState c f (tr ++ [EvPing ip])) = probesOf k (mkState c f tr).
Proof.
  intros Hk. unfold probesOf. simpl. rewrite filter_app, length_app. simpl.
  rewrite filter_cons_False by congruence. simpl. lia.
Qed.

Section CallFacts.
Context (W : World).

Lemma callStep_check_hit (ip : string) (s : State) (v : Q) :
  PingCache s !! ip = Some v -> callStep W (AtCheck ip) s = (Returned ip v, s).
Proof.
  intros Hhit. unfold callStep, mbind, M_bind, cacheLookup. now rewrite Hhit.
Qed.

Lemma callStep_check_miss (ip : string) (s : State) :
  PingCache s !! ip = None -> callStep W (AtCheck ip) s = (AtProbe ip, s).
Proof.
  intros Hmiss. unfold callStep, mbind, M_bind, cacheLookup. now rewrite Hmiss.
Qed.

Lemma callStep_no_pinger (ip : string) (s : State) (err : string) :
  ping_NewPinger W ip = Some err ->
  callStep W (AtProbe ip) s = (Returned ip timeoutLatency, s).
Proof. intros Herr. unfold callStep. now rewrite Herr. Qed.

Lemma callStep_probe (ip : string) (s : State) :
  ping_NewPinger W ip = None ->
  callStep W (AtProbe ip) s =
    (AtStore ip (measured (pinger_Run W ip (clock s))),
     mkState (PingCache s) (files s) (trace s ++ [EvPing ip])).
Proof.
  intros Hnew. unfold callStep, measured, mbind, M_bind, now, emit. rewrite Hnew.
  destruct (pinger_Run W ip (clock s)) as [err rtts]. simpl.
  destruct (bool_decide (err ≠ None) || (length (map rttMilliseconds rtts) =? 0)%nat);
    simpl; [reflexivity|].
  rewrite Float64s_length. reflexivity.
Qed.

Lemma callStep_store (ip : string) (v : Q) (s : State) :
  callStep W (AtStore ip v) s =
    (Returned ip v, mkState (<[ip := v]> (PingCache s)) (files s) (trace s)).
Proof. reflexivity. Qed.

Lemma stepCall_head (c : Call) (calls : list Call) (s : State) :
  stepCall W 0 (c :: calls) s = ((callStep W c s).1 :: calls, (callStep W c s).2).
Proof.
  unfold stepCall, mbind, M_bind. simpl. now destruct (callStep W c s).
Qed.

Lemma stepCall_cons (j : nat) (c : Call) (calls : list Call) (s : State) :
  stepCall W (S j) (c :: calls) s =
    (c :: (stepCall W j calls s).1, (stepCall W j calls s).2).
Proof.
  unfold stepCall, mbind, M_bind. simpl.
  destruct (calls !! j) as [cj|]; [|reflexivity].
  now destruct (callStep W cj s).
Qed.

Lemma stepCall_nil (j : nat) (s : State) : stepCall W j [] s = ([], s).
Proof. unfold stepCall. now destruct j. Qed.

Lemma runCalls_cons (j : nat) (schedule : list nat) (calls : list Call) (s : State) :
  runCalls W (j :: schedule) calls s =
    runCalls W schedule (stepCall W j calls s).1 (stepCall W j calls s).2.
Proof.
  simpl. unfold mbind, M_bind. now destruct (stepCall W j calls s).
Qed.

(** The function [pingCached] is a call that takes its steps without a step
    of another call in between. *)
Lemma pingCached_alone (ip : string) (s : State) :
  runCalls W [0; 0; 0]%nat [AtCheck ip] s =
    ([Returned ip (pingCached W ip s).1], (pingCached W ip s).2).
Proof.
  rewrite runCalls_cons, stepCall_head.
  destruct (PingCache s !! ip) as [v|] eqn:Hcache.
  - rewrite (callStep_check_hit ip s v Hcache), (pingCached_hit W ip s v Hcache).
    reflexivity.
  - rewrite (callStep_check_miss ip s Hcache). cbn [fst snd].
    rewrite runCalls_cons, stepCall_head.
    destruct (ping_NewPinger W ip) as [err|] eqn:Hnew.
    + rewrite (callStep_no_pinger ip s err Hnew),
              (pingCached_no_pinger W ip s err Hcache Hnew).
      reflexivity.
    + rewrite (callStep_probe ip s Hnew), (pingCached_probe W ip s Hcache Hnew).
      reflexivity.
Qed.

(** What one step of a call does, whatever the call. *)
Lemma callStep_frame (c : Call) (s : State) :
  callAddress (callStep W c s).1 = callAddress c /\
  files (callStep W c s).2 = files s /\
  (forall k, is_Some (PingCache s !! k) -> is_Some (PingCache (callStep W c s).2 !! k)) /\
  (forall k, k <> callAddress c ->
     PingCache (callStep W c s).2 !! k = PingCache s !! k /\
     probesOf k (callStep W c s).2 = probesOf k s) /\
  (forall ip,
     (probesOf ip (callStep W c s).2
        + (if awaitsProbe ip (callStep W c s).1 then 1 else 0)
      <= probesOf ip s + if awaitsProbe ip c then 1 else 0)%nat) /\
  (returnedSettled W s c -> returnedSettled W (callStep W c s).2 (callStep W c s).1) /\
  (stepsLeft (callStep W c s).1 <= stepsLeft c - 1)%nat.
Proof.
  destruct c as [ip|ip|ip v|ip v].
  - destruct (PingCache s !! ip) as [v|] eqn:Hcache.
    + rewrite (callStep_check_hit ip s v Hcache). simpl.
      split; [reflexivity|]. split; [reflexivity|]. split; [auto|]. split; [auto|].
      split; [intros ip'; destruct (String.eqb ip ip'); lia|].
      split; [|lia]. intros _. left. rewrite Hcache. now eexists.
    + rewrite (callStep_check_miss ip s Hcache). simpl.
      split; [reflexivity|]. split; [reflexivity|]. split; [auto|]. split; [auto|].
      split; [intros ip'; lia|]. split; [auto|lia].
  - destruct (ping_NewPinger W ip) as [err|] eqn:Hnew.
    + rewrite (callStep_no_pinger ip s err Hnew). simpl.
      split; [reflexivity|]. split; [reflexivity|]. split; [auto|]. split; [auto|].
      split; [intros ip'; destruct (String.eqb ip ip'); lia|].
      split; [|lia]. intros _. right. congruence.
    + rewrite (callStep_probe ip s Hnew). simpl.
      split; [reflexivity|]. split; [reflexivity|]. split; [auto|].
      split; [intros k Hk; split; [reflexivity|]; destruct s; now apply probesOf_emit_other|].
      split; [|split; [auto|lia]].
      intros ip'. destruct (String.eqb ip ip') eqn:Heq.
      * apply String.eqb_eq in Heq. subst ip'. destruct s as [c f tr].
        rewrite probesOf_emit_ping. simpl. lia.
      * apply String.eqb_neq in Heq. destruct s as [c f tr].
        rewrite probesOf_emit_other by congruence. simpl. lia.
  - rewrite callStep_store. simpl.
    split; [reflexivity|]. split; [reflexivity|].
    split.
    { intros k Hk. destruct (decide (k = ip)) as [->|Hne].
      - rewrite lookup_insert_eq. now eexists.
      - now rewrite lookup_insert_ne by congruence. }
    split; [intros k Hk; split; [now rewrite lookup_insert_ne by congruence|reflexivity]|].
    split; [intros ip'; unfold probesOf; simpl; lia|].
    split; [|lia]. intros _. left. simpl. rewrite lookup_insert_eq. now eexists.
  - simpl. split; [reflexivity|]. split; [reflexivity|]. split; [auto|]. split; [auto|].
    split; [intros ip'; lia|]. split; [auto|lia].
Qed.

Lemma settled_mono (ip : string) (s s' : State) :
  (forall k, is_Some (PingCache s !! k) -> is_Some (PingCache s' !! k)) ->
  settled W ip s -> settled W ip s'.
Proof. intros Hgrow [Hin|Hno]; [left; now apply Hgrow|right; exact Hno]. Qed.

Lemma returnedSettled_mono (c : Call) (s s' : State) :
  (forall k, is_Some (PingCache s !! k) -> is_Some (PingCache s' !! k)) ->
  returnedSettled W s c -> returnedSettled W s' c.
Proof. destruct c; simpl; auto. now apply settled_mono. Qed.

Lemma pendingProbes_cons (ip : string) (c : Call) (calls : list Call) :
  pendingProbes ip (c :: calls)
    = ((if awaitsProbe ip c then 1 else 0) + pendingProbes ip calls)%nat.
Proof. unfold pendingProbes, countIf. simpl. now destruct (awaitsProbe ip c). Qed.

Lemma stepCall_frame (j : nat) (calls : list Call) (s : State) :
  map callAddress (stepCall W j calls s).1 = map callAddress calls /\
  files (stepCall W j calls s).2 = files s /\
  (forall k, is_Some (PingCache s !! k) ->
             is_Some (PingCache (stepCall W j calls s).2 !! k)) /\
  (forall ip,
     (probesOf ip (stepCall W j calls s).2 + pendingProbes ip (stepCall W j calls s).1
      <= probesOf ip s + pendingProbes ip calls)%nat) /\
  (Forall (returnedSettled W s) calls ->
   Forall (returnedSettled W (stepCall W j calls s).2) (stepCall W j calls s).1).
Proof.
  revert j. induction calls as [|c calls IH]; intros j.
  - rewrite stepCall_nil. simpl. repeat split; auto.
  - destruct j as [|j].
    + rewrite stepCall_head. simpl.
      destruct (callStep_frame c s) as (Haddr & Hfiles & Hgrow & _ & Hprobes & Hret & _).
      split; [now rewrite Haddr|]. split; [exact Hfiles|]. split; [exact Hgrow|].
      split.
      * intros ip. rewrite !pendingProbes_cons. specialize (Hprobes ip). lia.
      * intros Hall. apply Forall_cons in Hall as [Hc Hall]. constructor; [auto|].
        eapply Forall_impl; [exact Hall|]. intros c' Hc'.
        now apply (returnedSettled_mono c' s).
    + rewrite stepCall_cons. simpl.
      destruct (IH j) as (Haddr & Hfiles & Hgrow & Hprobes & Hret).
      split; [now rewrite Haddr|]. split; [exact Hfiles|]. split; [exact Hgrow|].
      split.
      * intros ip. rewrite !pendingProbes_cons. specialize (Hprobes ip). lia.
      * intros Hall. apply Forall_cons in Hall as [Hc Hall]. constructor; [|auto].
        now apply (returnedSettled_mono c s).
Qed.

Lemma runCalls_frame (schedule : list nat) (calls : list Call) (s : State) :
  map callAddress (runCalls W schedule calls s).1 = map callAddress calls /\
  files (runCalls W schedule calls s).2 = files s /\
  (forall k, is_Some (PingCache s !! k) ->
             is_Some (PingCache (runCalls W schedule calls s).2 !! k)) /\
  (forall ip,
     (probesOf ip (runCalls W schedule calls s).2
        + pendingProbes ip (runCalls W schedule calls s).1
      <= probesOf ip s + pendingProbes ip calls)%nat) /\
  (Forall (returnedSettled W s) calls ->
   Forall (returnedSettled W (runCalls W schedule calls s).2)
          (runCalls W schedule calls s).1).
Proof.
  revert calls s. induction schedule as [|j schedule IH]; intros calls s.
  - simpl. repeat split; auto.
  - rewrite runCalls_cons.
    destruct (stepCall_frame j calls s) as (Ha1 & Hf1 & Hg1 & Hp1 & Hr1).
    destruct (IH (stepCall W j calls s).1 (stepCall W j calls s).2)
      as (Ha2 & Hf2 & Hg2 & Hp2 & Hr2).
    split; [congruence|]. split; [congruence|]. split; [auto|].
    split; [intros ip; specialize (Hp1 ip); specialize (Hp2 ip); lia|auto].
Qed.

Lemma stepCall_lookup_ne (i j : nat) (calls : list Call) (s : State) :
  i <> j -> (stepCall W j calls s).1 !! i = calls !! i.
Proof.
  intros Hne. unfold stepCall, mbind, M_bind.
  destruct (calls !! j) as [c|]; [|reflexivity].
  destruct (callStep W c s) as [c' s']. simpl.
  now rewrite list_lookup_insert_ne by congruence.
Qed.

Lemma stepCall_lookup_eq (j : nat) (calls : list Call) (s : State) (c : Call) :
  calls !! j = Some c ->
  (stepCall W j calls s).1 !! j = Some (callStep W c s).1 /\
  (stepCall W j calls s).2 = (callStep W c s).2.
Proof.
  intros Hj. unfold stepCall, mbind, M_bind. rewrite Hj.
  destruct (callStep W c s) as [c' s']. simpl. split; [|reflexivity].
  apply list_lookup_insert_eq. now apply lookup_lt_Some in Hj.
Qed.

Lemma stepCall_lookup_none (j : nat) (calls : list Call) (s : State) :
  calls !! j = None -> stepCall W j calls s = (calls, s).
Proof. intros Hj. unfold stepCall. now rewrite Hj. Qed.

(** Every step of a call brings it nearer to its return; the steps of the
    other calls do not hold it up. *)
Lemma runCalls_progress (schedule : list nat) (calls : list Call) (s : State)
    (i : nat) (c : Call) :
  calls !! i = Some c ->
  exists c',
    (runCalls W schedule calls s).1 !! i = Some c' /\
    callAddress c' = callAddress c /\
    (stepsLeft c' <= stepsLeft c - countIf (Nat.eqb i) schedule)%nat.
Proof.
  revert calls s c. induction schedule as [|j schedule IH]; intros calls s c Hi.
  - exists c. simpl. split; [exact Hi|]. split; [reflexivity|]. unfold countIf. simpl. lia.
  - rewrite runCalls_cons. unfold countIf. simpl.
    destruct (Nat.eqb i j) eqn:Heq.
    + apply Nat.eqb_eq in Heq. subst j.
      destruct (stepCall_lookup_eq i calls s c Hi) as [Hlook _].
      destruct (callStep_frame c s) as (Haddr & _ & _ & _ & _ & _ & Hless).
      destruct (IH _ (stepCall W i calls s).2 _ Hlook) as (c' & Hc' & Ha & Hs).
      exists c'. split; [exact Hc'|]. split; [congruence|].
      unfold countIf in Hs. simpl. lia.
    + apply Nat.eqb_neq in Heq.
      assert (Hlook : (stepCall W j calls s).1 !! i = Some c)
        by (now rewrite stepCall_lookup_ne).
      destruct (IH _ (stepCall W j calls s).2 _ Hlook) as (c' & Hc' & Ha & Hs).
      exists c'. split; [exact Hc'|]. split; [exact Ha|]. exact Hs.
Qed.

Lemma pendingProbes_fresh (ip : string) (ips : list string) :
  pendingProbes ip (map AtCheck ips) = countIf (fun ip' => String.eqb ip' ip) ips.
Proof.
  unfold pendingProbes, countIf. induction ips as [|ip' ips IH]; [reflexivity|].
  simpl. destruct (String.eqb ip' ip); simpl; now rewrite IH.
Qed.

(** X4. Calls of [pingCached] that overlap in any way.  However the steps
    of any number of calls are interleaved: no file is written and no cache
    entry is ever removed; a call that has returned leaves its address with
    an entry in the cache, unless no pinger can be created for it; the runs
    of echo requests to an address are at most as many as the calls for it;
    and a call that has taken three steps has returned. *)
Theorem pingCached_calls_settle (ips : list string) (schedule : list nat) (s : State) :
  files (runCalls W schedule (map AtCheck ips) s).2 = files s /\
  (forall k, is_Some (PingCache s !! k) ->
             is_Some (PingCache (runCalls W schedule (map AtCheck ips) s).2 !! k)) /\
  (forall i ip v,
     (runCalls W schedule (map AtCheck ips) s).1 !! i = Some (Returned ip v) ->
     ips !! i = Some ip /\
     settled W ip (runCalls W schedule (map AtCheck ips) s).2) /\
  (forall ip,
     (probesOf ip (runCalls W schedule (map AtCheck ips) s).2
      <= probesOf ip s + countIf (fun ip' => String.eqb ip' ip) ips)%nat) /\
  (forall i ip,
     ips !! i = Some ip -> (3 <= countIf (Nat.eqb i) schedule)%nat ->
     exists v, (runCalls W schedule (map AtCheck ips) s).1 !! i = Some (Returned ip v)).
Proof.
  destruct (runCalls_frame schedule (map AtCheck ips) s)
    as (Haddr & Hfiles & Hgrow & Hprobes & Hret).
  split; [exact Hfiles|]. split; [exact Hgrow|]. split; [|split].
  - intros i ip v Hi. split.
    + assert (Ha : map callAddress (runCalls W schedule (map AtCheck ips) s).1 !! i
                   = Some ip)
        by (rewrite list_lookup_fmap, Hi; reflexivity).
      rewrite Haddr, <- list_fmap_compose in Ha.
      rewrite list_lookup_fmap in Ha.
      destruct (ips !! i) as [ip'|]; simpl in Ha; congruence.
    + assert (Hfresh : Forall (returnedSettled W s) (map AtCheck ips))
        by (apply Forall_fmap, Forall_true; intros ip'; exact I).
      specialize (Hret Hfresh).
      rewrite Forall_lookup in Hret. exact (Hret i _ Hi).
  - intros ip. specialize (Hprobes ip). rewrite pendingProbes_fresh in Hprobes. lia.
  - intros i ip Hi Hsteps.
    assert (Hcall : map AtCheck ips !! i = Some (AtCheck ip))
      by (rewrite list_lookup_fmap, Hi; reflexivity).
    destruct (runCalls_progress schedule _ s i _ Hcall) as (c' & Hc' & Ha & Hleft).
    simpl in Ha, Hleft.
    destruct c' as [ip'|ip'|ip' v|ip' v]; simpl in Ha, Hleft; try lia.
    subst ip'. exists v. exact Hc'.
Qed.

Lemma callStep_pastProbe (ip : string) (c : Call) (s : State) :
  settled W ip s -> pastProbe W ip c ->
  pastProbe W ip (callStep W c s).1 /\ trace (callStep W c s).2 = trace s.
Proof.
  intros Hset [->|[[-> Hno]|[v ->]]].
  - destruct (PingCache s !! ip) as [v|] eqn:Hcache.
    + rewrite (callStep_check_hit ip s v Hcache). simpl.
      split; [right; right; now exists v|reflexivity].
    + rewrite (callStep_check_miss ip s Hcache). simpl. split; [|reflexivity].
      right. left. split; [reflexivity|].
      destruct Hset as [[u Hu]|Hno]; [congruence|exact Hno].
  - destruct (ping_NewPinger W ip) as [err|] eqn:Hnew; [|congruence].
    rewrite (callStep_no_pinger ip s err Hnew). simpl.
    split; [right; right; now eexists|reflexivity].
  - simpl. split; [right; right; now exists v|reflexivity].
Qed.

(** A call of [pingCached] that begins when its address has an entry in the
    cache, or when no pinger can be created for it, never reaches
    [pinger.Run], whatever other calls run beside it and however their
    steps are interleaved with its own.  If every call for the address is
    in that situation, no run of echo requests to it is made at all. *)
Lemma pingCached_settled_never_probes (ip : string) (calls : list Call) (i : nat)
    (schedule : list nat) (s : State) :
  settled W ip s ->
  calls !! i = Some (AtCheck ip) ->
  (exists c, (runCalls W schedule calls s).1 !! i = Some c /\ pastProbe W ip c) /\
  (Forall (fun c => callAddress c = ip -> pastProbe W ip c) calls ->
   probesOf ip (runCalls W schedule calls s).2 = probesOf ip s).
Proof.
  intros Hset Hi. split.
  - assert (Hpast : pastProbe W ip (AtCheck ip)) by (now left).
    revert calls s Hset Hi Hpast. generalize (AtCheck ip) as c0.
    induction schedule as [|j schedule IH]; intros c0 calls s Hset Hi Hpast.
    + exists c0. split; [exact Hi|exact Hpast].
    + rewrite runCalls_cons.
      destruct (stepCall_frame j calls s) as (_ & _ & Hgrow & _ & _).
      apply (IH (if decide (i = j) then (callStep W c0 s).1 else c0)).
      * now apply (settled_mono ip s).
      * destruct (decide (i = j)) as [<-|Hne].
        -- now destruct (stepCall_lookup_eq i calls s c0 Hi).
        -- now rewrite stepCall_lookup_ne.
      * destruct (decide (i = j)); [|exact Hpast].
        now destruct (callStep_pastProbe ip c0 s Hset Hpast).
  - clear i Hi. revert calls s Hset.
    induction schedule as [|j schedule IH]; intros calls s Hset Hall; [reflexivity|].
    rewrite runCalls_cons.
    destruct (stepCall_frame j calls s) as (_ & _ & Hgrow & _ & _).
    assert (Hstep : probesOf ip (stepCall W j calls s).2 = probesOf ip s /\
                    Forall (fun c => callAddress c = ip -> pastProbe W ip c)
                           (stepCall W j calls s).1).
    { destruct (calls !! j) as [c|] eqn:Hj.
      - destruct (stepCall_lookup_eq j calls s c Hj) as [_ Hstate].
        assert (Hcalls : (stepCall W j calls s).1 = <[j := (callStep W c s).1]> calls).
        { unfold stepCall, mbind, M_bind. rewrite Hj.
          now destruct (callStep W c s). }
        rewrite Hstate, Hcalls.
        destruct (callStep_frame c s) as (Haddr & _ & _ & Hother & _).
        destruct (decide (callAddress c = ip)) as [Hc|Hc].
        + rewrite Forall_lookup in Hall. pose proof (Hall j c Hj Hc) as Hpast.
          destruct (callStep_pastProbe ip c s Hset Hpast) as [Hpast' Htrace].
          split; [unfold probesOf; now rewrite Htrace|].
          apply Forall_insert; [now apply Forall_lookup|]. intros _. exact Hpast'.
        + split; [now apply Hother|].
          apply Forall_insert; [exact Hall|]. intros Hc'. congruence.
      - rewrite (stepCall_lookup_none j calls s Hj). split; [reflexivity|exact Hall]. }
    destruct Hstep as [Hprobes Hall'].
    rewrite (IH _ _ (settled_mono ip s _ Hgrow Hset) Hall'). exact Hprobes.
Qed.









End CallFacts.



(** ** Sorting facts *)

Section Ascending.
Context {A : Type} (leb : A -> A -> bool).

Lemma insertAscending_perm (x : A) (l : list A) :
  Permutation (GoSort.insertAscending leb x l) (x :: l).
Proof.
  induction l as [|y l IH]; simpl; [reflexivity|].
  destruct (leb x y); [reflexivity|].
  rewrite IH. apply perm_swap.
Qed.

Lemma ascending_perm (l : list A) : Permutation (GoSort.ascending leb l) l.
Proof.
  unfold GoSort.ascending. induction l as [|x l IH]; simpl; [reflexivity|].
  rewrite insertAscending_perm. now constructor.
Qed.

Hypothesis leb_total : forall x y, leb x y = true \/ leb y x = true.

Lemma insertAscending_sorted (x : A) (l : list A) :
  Sorted (fun a b => leb a b = true) l ->
  Sorted (fun a b => leb a b = true) (GoSort.insertAscending leb x l).
Proof.
  induction l as [|y l IH]; simpl; intros Hs.
  - repeat constructor.
  - destruct (leb x y) eqn:Hxy.
    + constructor; [assumption|]. now constructor.
    + inversion Hs as [|? ? Hl Hhd]; subst. constructor; [now apply IH|].
      destruct l as [|z l]; simpl.
      * constructor. destruct (leb_total x y); congruence.
      * destruct (leb x z); constructor.
        -- destruct (leb_total x y); congruence.
        -- now inversion Hhd.
Qed.

Lemma ascending_sorted (l : list A) :
  Sorted (fun a b => leb a b = true) (GoSort.ascending leb l).
Proof.
  unfold GoSort.ascending. induction l as [|x l IH]; simpl.
  - constructor.
  - now apply insertAscending_sorted.
Qed.
End Ascending.

Lemma countIf_perm {A : Type} (f : A -> bool) (l l' : list A) :
  Permutation l l' -> countIf f l = countIf f l'.
Proof.
  unfold countIf. induction 1 as [|x l l' _ IH|x y l|l l' l'' _ IH1 _ IH2]; simpl.
  - reflexivity.
  - destruct (f x); simpl; congruence.
  - destruct (f x), (f y); reflexivity.
  - congruence.
Qed.

Lemma Qle_bool_total (x y : Q) : Qle_bool x y = true \/ Qle_bool y x = true.
Proof.
  destruct (Qlt_le_dec x y) as [H|H].
  - left. apply Qle_bool_iff. now apply Qlt_le_weak.
  - right. now apply Qle_bool_iff.
Qed.

Lemma Float64s_sorted (l : list Q) : StronglySorted Qle (GoSort.Float64s l).
Proof.
  apply Sorted.Sorted_StronglySorted.
  - intros x y z. apply Qle_trans.
  - eapply Sorted_ind with (P := fun k => Sorted Qle k);
      [constructor| |apply (ascending_sorted Qle_bool Qle_bool_total l)].
    intros a k _ IH Hhd. constructor; [assumption|].
    destruct Hhd; constructor. now apply Qle_bool_iff.
Qed.

(** In an ascending list, the element at index [k] has at least [k + 1]
    elements at most as large and at least [length l - k] at least as
    large. *)
Lemma sorted_nth_counts (l : list Q) (k : nat) :
  StronglySorted Qle l -> (k < length l)%nat ->
  (k + 1 <= countIf (fun x => Qle_bool x (nth k l 0%Q)) l)%nat /\
  (length l - k <= countIf (fun x => Qle_bool (nth k l 0%Q) x) l)%nat.
Proof.
  intros Hs. revert k. induction Hs as [|x l Hs IH Hall]; intros k Hk; simpl in Hk.
  - lia.
  - destruct k as [|k]; unfold countIf in *; simpl.
    + assert (Hxx : Qle_bool x x = true) by (apply Qle_bool_iff, Qle_refl).
      rewrite Hxx. simpl. split; [lia|].
      assert (Hfilter : List.filter (fun y => Qle_bool x y) l = l).
      { clear -Hall. induction l as [|y l IHl]; simpl; [reflexivity|].
        inversion Hall as [|? ? Hy Hl]; subst.
        apply Qle_bool_iff in Hy. rewrite Hy. f_equal. now apply IHl. }
      rewrite Hfilter. lia.
    + destruct (IH k ltac:(lia)) as [Hle Hge].
      assert (Hin : In (nth k l 0%Q) l) by (apply nth_In; lia).
      assert (Hx : Qle_bool x (nth k l 0%Q) = true).
      { apply Qle_bool_iff. now apply (proj1 (List.Forall_forall _ _) Hall). }
      rewrite Hx. simpl. split; [lia|].
      destruct (Qle_bool (nth k l 0%Q) x); simpl; lia.
Qed.

Lemma Float64s_median (l : list Q) :
  l <> [] -> isMedian (nth (length l / 2) (GoSort.Float64s l) 0%Q) l.
Proof.
  intros Hne. pose proof (ascending_perm Qle_bool l) as Hperm.
  fold (GoSort.Float64s l) in Hperm.
  pose proof (Float64s_length l) as Hlen.
  assert (Hpos : (0 < length l)%nat) by (destruct l; [congruence|simpl; lia]).
  assert (Hk : (length l / 2 < length (GoSort.Float64s l))%nat).
  { rewrite Hlen. apply Nat.div_lt; lia. }
  destruct (sorted_nth_counts _ _ (Float64s_sorted l) Hk) as [Hle Hge].
  pose proof (Nat.div_mod_eq (length l) 2) as Hdiv.
  pose proof (Nat.mod_upper_bound (length l) 2 ltac:(lia)) as Hmod.
  unfold isMedian. repeat split.
  - eapply Permutation_in; [exact Hperm|]. now apply nth_In.
  - rewrite <- (countIf_perm _ _ _ Hperm). lia.
  - rewrite <- (countIf_perm _ _ _ Hperm). rewrite Hlen in Hge. lia.
Qed.

Section Measurement.
Context (W : World).

(** C4 (amended). On a cache miss the measurement is the timeout value
    whenever the pinger cannot be created, [pinger.Run] reports an error, or
    no reply was received; otherwise it is the element of index [n / 2] of
    the [n] received round-trip times in ascending order, which is a median
    of them. *)
Theorem pingCached_miss_measurement (ip : string) (s : State) :
  PingCache s !! ip = None ->
  let result := (pingCached W ip s).1 in
  let run := pinger_Run W ip (clock s) in
  let pingTimes := map rttMilliseconds run.2 in
  (ping_NewPinger W ip <> None \/ run.1 <> None \/ run.2 = [] ->
   result = timeoutLatency) /\
  (ping_NewPinger W ip = None -> run.1 = None -> run.2 <> [] ->
   result = nth (length pingTimes / 2) (GoSort.Float64s pingTimes) 0%Q /\
   isMedian result pingTimes).
Proof.
  intros Hmiss. cbv zeta.
  destruct (ping_NewPinger W ip) as [e|] eqn:Hnew.
  - rewrite (pingCached_no_pinger W ip s e Hmiss Hnew). simpl.
    split; [reflexivity|discriminate].
  - rewrite (pingCached_probe W ip s Hmiss Hnew). simpl. unfold measured.
    destruct (pinger_Run W ip (clock s)) as [err rtts]. simpl.
    destruct err as [e|].
    + rewrite bool_decide_eq_true_2 by discriminate. simpl.
      split; [reflexivity|discriminate].
    + rewrite bool_decide_eq_false_2 by (intros H; now apply H). simpl.
      destruct rtts as [|rtt rtts].
      * simpl. split; [reflexivity|congruence].
      * assert (Hlen : (length (map rttMilliseconds (rtt :: rtts)) =? 0)%nat = false)
          by reflexivity.
        rewrite Hlen. split.
        -- intros [H|[H|H]]; congruence.
        -- intros _ _ _. split; [reflexivity|]. now apply Float64s_median.
Qed.
End Measurement.

Lemma pingCached_miss_measurement_witness :
  isMedian (pingCached (answeringWorld (fun _ => [3000000; 1000000; 2000000]%Z))
                       "10.0.0.1" emptyState).1
           (map rttMilliseconds [3000000; 1000000; 2000000]%Z).
Proof.
  refine (proj2 (proj2 (pingCached_miss_measurement
                   (answeringWorld (fun _ => [3000000; 1000000; 2000000]%Z))
                   "10.0.0.1" emptyState _) _ _ _)).
  - reflexivity.
  - reflexivity.
  - reflexivity.
  - discriminate.
Defined.

(** C4, as stated, fails: [pinger.Run] returns an error after a reply of
    5 ms was received; the measurement is the timeout value, which is not a
    median of the received round-trip times. *)
Lemma pingCached_run_error_not_median :
  PingCache emptyState !! "10.0.0.1" = None /\
  pinger_Run failingRunWorld "10.0.0.1" (clock emptyState)
    = (Some "read udp: connection refused", [5000000%Z]) /\
  (pingCached failingRunWorld "10.0.0.1" emptyState).1 = timeoutLatency /\
  ~ isMedian (pingCached failingRunWorld "10.0.0.1" emptyState).1
             (map rttMilliseconds [5000000%Z]).
Proof.
  repeat split.
  intros [Hin _]. vm_compute in Hin. destruct Hin as [H|[]]. discriminate H.
Qed.

(** ** Selection of the best address *)

Section Selection.
Context (W : World) (sort_Slice : SliceSorter).

Lemma probeAll_cons (ip : string) (ipList : list string) (s : State) :
  probeAll W (ip :: ipList) s =
    let '(pingTime, s1) := pingCached W ip s in
    let '(rest, s2) := probeAll W ipList s1 in
    (mkIpPing ip pingTime :: rest, s2).
Proof.
  unfold probeAll. simpl. unfold mbind, M_bind, mret, M_ret.
  destruct (pingCached W ip s) as [pingTime s1].
  match goal with |- context [?rest s1] => destruct (rest s1) as [rest' s2] end.
  reflexivity.
Qed.

Lemma probeAll_IPs (ipList : list string) (s : State) :
  map ipPing_IP (probeAll W ipList s).1 = ipList.
Proof.
  revert s. induction ipList as [|ip ipList IH]; intros s; [reflexivity|].
  rewrite probeAll_cons. destruct (pingCached W ip s) as [pingTime s1].
  specialize (IH s1). destruct (probeAll W ipList s1) as [rest s2].
  simpl in *. now rewrite IH.
Qed.

Lemma probeAll_keeps (ipList : list string) (k : string) (v : Q) (s : State) :
  PingCache s !! k = Some v -> PingCache (probeAll W ipList s).2 !! k = Some v.
Proof.
  revert s. induction ipList as [|ip ipList IH]; intros s Hk; [assumption|].
  rewrite probeAll_cons. pose proof (pingCached_keeps W ip k v s Hk) as Hk1.
  destruct (pingCached W ip s) as [pingTime s1]. specialize (IH s1 Hk1).
  destruct (probeAll W ipList s1) as [rest s2]. exact IH.
Qed.

Lemma probeAll_cached (ipList : list string) (ip : string) (s : State) :
  In ip ipList -> ping_NewPinger W ip = None ->
  is_Some (PingCache (probeAll W ipList s).2 !! ip).
Proof.
  revert s. induction ipList as [|x ipList IH]; intros s Hin Hnew; [destruct Hin|].
  rewrite probeAll_cons. destruct Hin as [->|Hin].
  - destruct (pingCached_cached W ip s Hnew) as [v Hv].
    destruct (pingCached W ip s) as [pingTime s1]. simpl in Hv.
    pose proof (probeAll_keeps ipList ip v s1 Hv) as Hkeep.
    destruct (probeAll W ipList s1) as [rest s2]. simpl in *. now exists v.
  - destruct (pingCached W x s) as [pingTime s1]. specialize (IH s1 Hin Hnew).
    destruct (probeAll W ipList s1) as [rest s2]. exact IH.
Qed.

Lemma selectBestIP_unfold (ipList : list string) (s : State) :
  ipList <> [] ->
  selectBestIP W sort_Slice ipList s =
    (match sort_Slice ipPing ipPing_less (probeAll W ipList s).1 with
     | best :: _ => ipPing_IP best
     | [] => ""
     end, (probeAll W ipList s).2).
Proof.
  intros Hne. unfold selectBestIP.
  destruct ipList as [|ip ipList]; [congruence|]. simpl (_ =? _)%nat. cbv iota.
  unfold mbind, M_bind, mret, M_ret.
  destruct (probeAll W (ip :: ipList) s) as [results s']. reflexivity.
Qed.

Lemma ipPing_less_false (x y : ipPing) :
  ipPing_less y x = false <-> (ipPing_Ping x <= ipPing_Ping y)%Q.
Proof.
  unfold ipPing_less, Qltb. rewrite negb_false_iff. apply Qle_bool_iff.
Qed.

(** C1 (amended). For a non-empty list of candidates, when the call of
    [sort.Slice] inside [selectBestIP] sorts the probed candidates, the
    address returned is one of the candidates, and the latency obtained for
    it in this call is less than or equal to the latency obtained for every
    candidate. *)
Theorem selectBestIP_minimal (ipList : list string) (s : State) :
  ipList <> [] ->
  SortsSlice ipPing_less (probeAll W ipList s).1
             (sort_Slice ipPing ipPing_less (probeAll W ipList s).1) ->
  exists best : ipPing,
    In best (probeAll W ipList s).1 /\
    (selectBestIP W sort_Slice ipList s).1 = ipPing_IP best /\
    In (ipPing_IP best) ipList /\
    forall r, In r (probeAll W ipList s).1 -> (ipPing_Ping best <= ipPing_Ping r)%Q.
Proof.
  intros Hne [Hperm Hsorted].
  rewrite (selectBestIP_unfold ipList s Hne). simpl.
  pose proof (probeAll_IPs ipList s) as HIPs.
  set (results := (probeAll W ipList s).1) in *.
  destruct (sort_Slice ipPing ipPing_less results) as [|best sorted] eqn:Hsort.
  - apply Permutation_sym, Permutation_nil in Hperm.
    rewrite Hperm in HIPs. simpl in HIPs. congruence.
  - assert (Hbest : In best results).
    { eapply Permutation_in; [symmetry; exact Hperm|]. now left. }
    exists best. repeat split; [assumption| |].
    + rewrite <- HIPs. now apply in_map.
    + intros r Hr. eapply Permutation_in in Hr; [|exact Hperm].
      apply Sorted.Sorted_StronglySorted in Hsorted.
      * destruct Hr as [Heq|Hr]; [rewrite Heq; apply Qle_refl|].
        apply StronglySorted_inv in Hsorted. destruct Hsorted as [_ Hall].
        apply ipPing_less_false. now apply (proj1 (List.Forall_forall _ _) Hall).
      * intros x y z Hxy Hyz. apply ipPing_less_false.
        apply ipPing_less_false in Hxy, Hyz. eapply Qle_trans; eassumption.
Qed.
End Selection.

Lemma selectBestIP_minimal_witness :
  exists best : ipPing,
    In best (probeAll (answeringWorld thirteenRtts) ["10.0.0.21"; "10.0.0.22"] emptyState).1 /\
    (selectBestIP (answeringWorld thirteenRtts) GoSort.Slice
                  ["10.0.0.21"; "10.0.0.22"] emptyState).1 = ipPing_IP best /\
    In (ipPing_IP best) ["10.0.0.21"; "10.0.0.22"] /\
    forall r,
      In r (probeAll (answeringWorld thirteenRtts) ["10.0.0.21"; "10.0.0.22"] emptyState).1 ->
      (ipPing_Ping best <= ipPing_Ping r)%Q.
Proof.
  apply (selectBestIP_minimal (answeringWorld thirteenRtts) GoSort.Slice
           ["10.0.0.21"; "10.0.0.22"] emptyState).
  - discriminate.
  - vm_compute. split.
    + apply perm_swap.
    + repeat constructor.
Defined.

(** C1, as stated, fails on its tie-break.  The thirteen candidates are in
    lexicographic order; the first, the fourth and the seventh share the
    smallest latency.  The first seen of them is the first of the list, and
    [selectBestIP] returns the seventh. *)
Lemma selectBestIP_tie_not_first :
  GoSort.Strings thirteenCandidates = thirteenCandidates /\
  ipPing_IP <$> firstFastest (probeAll (answeringWorld thirteenRtts)
                                       thirteenCandidates emptyState).1
    = Some "10.0.0.10" /\
  (selectBestIP (answeringWorld thirteenRtts) GoSort.Slice
                thirteenCandidates emptyState).1 = "10.0.0.16".
Proof. repeat split; vm_compute; reflexivity. Qed.

(** ** The DNS source *)

Section DNSSource.
Context (W : World).

Lemma getIPFromDNS_loop_spec (servers : list string) (domain : string) (s : State) :
  let answers := resolverAnswers W servers domain (clock s) in
  let '(allIPs, s') := getIPFromDNS_loop W servers domain [] s in
  PingCache s' = PingCache s /\ files s' = files s /\
  ((exists k ips,
      answers !! k = Some ips /\ ips <> [] /\
      (forall j, (j < k)%nat -> answers !! j = Some []) /\
      allIPs = ips /\
      trace s' = trace s ++ dnsQueries (take (S k) servers) domain)
   \/
   ((forall j ips, answers !! j = Some ips -> ips = []) /\
    allIPs = [] /\
    trace s' = trace s ++ dnsQueries servers domain)).
Proof.
  revert s. induction servers as [|server servers IH]; intros s.
  - simpl. repeat split. right. repeat split.
    + intros j ips Hj. destruct j; discriminate Hj.
    + now rewrite app_nil_r.
  - simpl. unfold mbind, M_bind, now, emit. simpl.
    set (s1 := mkState (PingCache s) (files s) (trace s ++ [EvDNS server domain])).
    assert (Hclock : clock s1 = S (clock s)).
    { unfold clock, s1. simpl. rewrite length_app. simpl. lia. }
    specialize (IH s1). rewrite Hclock in IH.
    set (rest := resolverAnswers W servers domain (S (clock s))) in *.
    assert (Hcontinue :
      forall first, first = [] ->
        let '(allIPs, s') := getIPFromDNS_loop W servers domain [] s1 in
        PingCache s' = PingCache s /\ files s' = files s /\
        ((exists k ips,
            (first :: rest) !! k = Some ips /\ ips <> [] /\
            (forall j, (j < k)%nat -> (first :: rest) !! j = Some []) /\
            allIPs = ips /\
            trace s' = trace s ++ dnsQueries (take (S k) (server :: servers)) domain)
         \/
         ((forall j ips, (first :: rest) !! j = Some ips -> ips = []) /\
          allIPs = [] /\
          trace s' = trace s ++ dnsQueries (server :: servers) domain))).
    { intros first ->.
      destruct (getIPFromDNS_loop W servers domain [] s1) as [allIPs s'].
      destruct IH as (Hc & Hf & IH). repeat split; [assumption..|].
      destruct IH as [(k & ips & Hk & Hne & Hbefore & Hips & Htr)|(Hall & Hips & Htr)].
      - left. exists (S k), ips. repeat split; [assumption..| | assumption |].
        + intros [|j] Hj; [reflexivity|]. apply Hbefore. lia.
        + rewrite Htr. unfold s1. simpl. now rewrite <- app_assoc.
      - right. repeat split; [|assumption|].
        + intros [|j] ips Hj; [now inversion Hj|]. now apply (Hall j).
        + rewrite Htr. unfold s1. simpl. now rewrite <- app_assoc. }
    destruct (dns_Exchange W server domain (clock s)) as [answer|].
    + simpl. destruct (answerAddresses answer) as [|a addrs] eqn:Haddrs.
      * simpl. now apply Hcontinue.
      * simpl. repeat split. left. exists 0%nat, (a :: addrs).
        repeat split; [discriminate|intros j Hj; lia].
    + now apply Hcontinue.
Qed.

(** C7. [getIPFromDNS] asks the resolvers of [DNSServers] in order.  It
    returns no error.  Either some resolver is the first to give at least
    one A-record address (those before it failed or gave none): then the
    result is exactly the addresses of that resolver and no later resolver
    is asked.  Or every resolver failed or gave none: then the result is
    empty and all of them were asked. *)
Theorem getIPFromDNS_first_success (domain : string) (s : State) :
  let answers := resolverAnswers W DNSServers domain (clock s) in
  let '((allIPs, err), s') := getIPFromDNS W domain s in
  err = None /\
  ((exists k ips,
      answers !! k = Some ips /\ ips <> [] /\
      (forall j, (j < k)%nat -> answers !! j = Some []) /\
      allIPs = ips /\
      trace s' = trace s ++ dnsQueries (take (S k) DNSServers) domain)
   \/
   ((forall j ips, answers !! j = Some ips -> ips = []) /\
    allIPs = [] /\
    trace s' = trace s ++ dnsQueries DNSServers domain)).
Proof.
  pose proof (getIPFromDNS_loop_spec DNSServers domain s) as Hloop.
  unfold getIPFromDNS, mbind, M_bind, mret, M_ret.
  destruct (getIPFromDNS_loop W DNSServers domain [] s) as [allIPs s'].
  destruct Hloop as (_ & _ & Hloop). split; [reflexivity|exact Hloop].
Qed.
End DNSSource.

(** ** Candidate aggregation *)

Section Aggregation.
Context (W : World) (sort_Slice : SliceSorter).

Lemma discarded_In (ip : string) : discarded ip = true <-> In ip DiscardList.
Proof.
  unfold discarded. rewrite existsb_exists. split.
  - intros (d & Hd & Heq). apply String.eqb_eq in Heq. now subst.
  - intros Hin. exists ip. split; [assumption|apply String.eqb_refl].
Qed.

Lemma collectCandidates_spec (ips : list string) (ip : string) :
  ip ∈ collectCandidates W ips <->
  In ip ips /\ ~ In ip DiscardList /\ net_ParseIP W ip = true.
Proof.
  unfold collectCandidates.
  assert (Hgen : forall acc : gset string,
    ip ∈ foldl (fun ipSet ip =>
                  if negb (discarded ip) && net_ParseIP W ip then {[ ip ]} ∪ ipSet else ipSet)
               acc ips <->
    ip ∈ acc \/ (In ip ips /\ ~ In ip DiscardList /\ net_ParseIP W ip = true)).
  { induction ips as [|x ips IH]; intros acc; simpl.
    - tauto.
    - rewrite IH. destruct (discarded x) eqn:Hd; simpl.
      + apply discarded_In in Hd. split; [tauto|].
        intros [H|([Hx|H] & Hnd & Hp)]; [tauto|subst; tauto|tauto].
      + assert (Hnd : ~ In x DiscardList).
        { intros Hin. apply discarded_In in Hin. congruence. }
        destruct (net_ParseIP W x) eqn:Hp.
        * rewrite elem_of_union, elem_of_singleton. split.
          -- intros [[Hx|H]|H]; [subst; right; auto|tauto|tauto].
          -- intros [H|([Hx|H] & Hnd' & Hp')]; [tauto|subst; tauto|tauto].
        * split; [tauto|].
          intros [H|([Hx|H] & Hnd' & Hp')]; [tauto|subst; congruence|tauto]. }
  rewrite Hgen. rewrite elem_of_empty. tauto.
Qed.

Lemma Strings_elements (ipSet : gset string) (ip : string) :
  In ip (GoSort.Strings (elements ipSet)) <-> ip ∈ ipSet.
Proof.
  rewrite <- elem_of_elements, <- list_elem_of_In.
  split; intros H.
  - now rewrite <- (ascending_perm String.leb (elements ipSet)).
  - unfold GoSort.Strings. now rewrite (ascending_perm String.leb (elements ipSet)).
Qed.

(** The list handed to [selectBestIP] is in lexicographic order. *)
Lemma Strings_sorted (l : list string) :
  Sorted (fun a b => String.leb a b = true) (GoSort.Strings l).
Proof. apply ascending_sorted. apply String.leb_total. Qed.

Lemma getBestIP_unfold (domain : string) (s : State) :
  getBestIP W sort_Slice domain s =
    if (size (candidatesOf W domain s) =? 0)%nat
    then ("", Some "未找到有效IP地址", afterSources W domain s)
    else
      let '(bestIP, s') :=
        selectBestIP W sort_Slice (GoSort.Strings (elements (candidatesOf W domain s)))
                     (afterSources W domain s) in
      (bestIP, None, s').
Proof.
  unfold getBestIP, candidatesOf, webAnswer, dnsAnswer, afterSources, mbind, M_bind.
  destruct (getIPFromWeb W domain s) as [[webIPs e1] s1]. simpl.
  destruct (getIPFromDNS W domain s1) as [[dnsIPs e2] s2]. simpl.
  destruct (size (collectCandidates W (webIPs ++ dnsIPs)) =? 0)%nat; [reflexivity|].
  destruct (selectBestIP W sort_Slice _ s2). reflexivity.
Qed.

(** C5. The candidates kept by [getBestIP] are the addresses given by either
    source that are not in [DiscardList] and that [net.ParseIP] accepts,
    each of them once.  When none is left the call returns no address and
    the error "no valid address found"; otherwise it returns no error and
    an address that is one of these candidates and was probed for its
    latency in this call; unless no pinger could be created for it, the
    cache then holds a measurement for it. *)
Theorem getBestIP_filtered (domain : string) (s : State) :
  let candidates := candidatesOf W domain s in
  let ipList := GoSort.Strings (elements candidates) in
  let results := (probeAll W ipList (afterSources W domain s)).1 in
  Permutation results (sort_Slice ipPing ipPing_less results) ->
  (forall ip, ip ∈ candidates <->
              In ip (webAnswer W domain s ++ dnsAnswer W domain s) /\
              ~ In ip DiscardList /\ net_ParseIP W ip = true) /\
  NoDup ipList /\
  (forall ip, In ip ipList <-> ip ∈ candidates) /\
  (candidates = ∅ ->
   (getBestIP W sort_Slice domain s).1 = ("", Some "未找到有效IP地址")) /\
  (candidates <> ∅ ->
   exists ip latency,
     (getBestIP W sort_Slice domain s).1 = (ip, None) /\
     ip ∈ candidates /\ In (mkIpPing ip latency) results /\
     (ping_NewPinger W ip = None ->
      is_Some (PingCache (getBestIP W sort_Slice domain s).2 !! ip))).
Proof.
  intros candidates ipList results Hperm.
  split; [intros ip; apply collectCandidates_spec|].
  split.
  { unfold ipList, GoSort.Strings.
    rewrite (ascending_perm String.leb (elements candidates)). apply NoDup_elements. }
  split; [intros ip; apply Strings_elements|].
  rewrite getBestIP_unfold. fold candidates. split.
  - intros ->. reflexivity.
  - intros Hne.
    assert (Hsize : (size candidates =? 0)%nat = false).
    { apply Nat.eqb_neq. intros Hz. apply Hne. apply leibniz_equiv. now apply size_empty_iff. }
    rewrite Hsize. fold ipList.
    assert (HipList : ipList <> []).
    { intros Hnil. apply Hne. apply set_eq. intros ip.
      rewrite <- Strings_elements. fold ipList. rewrite Hnil, elem_of_empty. simpl. tauto. }
    rewrite (selectBestIP_unfold W sort_Slice ipList _ HipList). fold results. simpl.
    pose proof (probeAll_IPs W ipList (afterSources W domain s)) as HIPs. fold results in HIPs.
    destruct (sort_Slice ipPing ipPing_less results) as [|[ip latency] sorted] eqn:Hsort.
    + apply Permutation_sym, Permutation_nil in Hperm.
      rewrite Hperm in HIPs. simpl in HIPs. congruence.
    + assert (Hin : In (mkIpPing ip latency) results).
      { eapply Permutation_in; [symmetry; exact Hperm|]. now left. }
      assert (Hip : In ip ipList).
      { rewrite <- HIPs. now apply (in_map ipPing_IP) in Hin. }
      exists ip, latency. split; [reflexivity|]. split; [|split; [assumption|]].
      * apply Strings_elements. exact Hip.
      * intros Hnew. now apply probeAll_cached.
Qed.
End Aggregation.

Lemma getBestIP_filtered_witness :
  ("10.0.0.21" ∈ candidatesOf sampleWorld "a.example" emptyState) /\
  ("127.0.0.1" ∉ candidatesOf sampleWorld "a.example" emptyState) /\
  ("999.1.1.1" ∉ candidatesOf sampleWorld "a.example" emptyState) /\
  (getBestIP sampleWorld GoSort.Slice "a.example" emptyState).1 = ("10.0.0.22", None).
Proof.
  destruct (getBestIP_filtered sampleWorld GoSort.Slice "a.example" emptyState)
    as (Hspec & _ & _ & _ & _).
  - vm_compute. apply perm_swap.
  - split; [|split; [|split]].
    + apply Hspec. vm_compute. intuition discriminate.
    + intros Hin. apply Hspec in Hin. destruct Hin as (_ & Hnd & _).
      apply Hnd. vm_compute. tauto.
    + intros Hin. apply Hspec in Hin. destruct Hin as (_ & _ & Hp). discriminate Hp.
    + reflexivity.
Defined.

(** ** Rendering *)

Lemma append_assoc (s1 s2 s3 : string) : (s1 +:+ s2) +:+ s3 = s1 +:+ (s2 +:+ s3).
Proof.
  induction s1 as [|c s1 IH]; [reflexivity|].
  change (String c ((s1 +:+ s2) +:+ s3) = String c (s1 +:+ (s2 +:+ s3))).
  now rewrite IH.
Qed.

Lemma append_nil_r (s : string) : s +:+ "" = s.
Proof.
  induction s as [|c s IH]; [reflexivity|].
  change (String c (s +:+ "") = String c s). now rewrite IH.
Qed.

Lemma spaces_length (n : nat) : String.length (spaces n) = n.
Proof.
  induction n as [|n IH]; [reflexivity|].
  change (S (String.length (spaces n)) = S n). now rewrite IH.
Qed.

Section Rendering.
Context (W : World).

Lemma render_lines (results : list HostResult) (start : string) :
  foldl (fun content result =>
           let line := padRight W 30 (IP result) +:+ " " +:+ Domain result in
           let line :=
             if Qgeb (Ping result) (inject_Z (PingTimeoutSec * 1000))
             then line +:+ "  # Timeout" else line in
           content +:+ (line +:+ newline))
        start results
  = start +:+
    String.concat ""
      (map (fun r => dataLine W (Qle_bool timeoutLatency (Ping r)) r) results).
Proof.
  revert start. induction results as [|r results IH]; intros start.
  - simpl. now rewrite append_nil_r.
  - simpl foldl. rewrite IH. rewrite append_assoc. f_equal.
    assert (Hline :
      (if Qgeb (Ping r) (inject_Z (PingTimeoutSec * 1000))
       then (padRight W 30 (IP r) +:+ " " +:+ Domain r) +:+ "  # Timeout"
       else padRight W 30 (IP r) +:+ " " +:+ Domain r) +:+ newline
      = dataLine W (Qle_bool timeoutLatency (Ping r)) r).
    { unfold dataLine, Qgeb, timeoutLatency.
      destruct (Qle_bool (inject_Z (PingTimeoutSec * 1000)) (Ping r)).
      - now rewrite !append_assoc.
      - now rewrite !append_assoc. }
    rewrite Hline. simpl map.
    destruct (map _ results) as [|l ls]; simpl.
    + now rewrite append_nil_r.
    + reflexivity.
Qed.

(** C6 (amended). The rendered text is the header block followed by one
    data line per result, in order.  A data line is the address (or the
    not-found marker) padded with spaces to 30 runes, a space, the domain
    and a line end, with the comment "# Timeout" before the line end if and
    only if the latency of the result is greater than or equal to the
    timeout value. *)
Theorem GenerateHostsContent_format (hd : HostsDetector) (currentTime : string)
    (results : list HostResult) :
  exists marks : list bool,
    GenerateHostsContent W hd currentTime results
      = headerBlock currentTime +:+
        String.concat "" (zip_with (dataLine W) marks results) /\
    length marks = length results /\
    (forall i mark r, marks !! i = Some mark -> results !! i = Some r ->
       (mark = true <-> (timeoutLatency <= Ping r)%Q)) /\
    (forall r, In r results ->
       padRight W 30 (IP r)
         = IP r +:+ spaces (30 - utf8_RuneCountInString W (IP r)) /\
       String.length (spaces (30 - utf8_RuneCountInString W (IP r)))
         = (30 - utf8_RuneCountInString W (IP r))%nat).
Proof.
  exists (map (fun r => Qle_bool timeoutLatency (Ping r)) results).
  split; [|split; [|split]].
  - assert (Hzip :
      zip_with (dataLine W) (map (fun r => Qle_bool timeoutLatency (Ping r)) results) results
      = map (fun r => dataLine W (Qle_bool timeoutLatency (Ping r)) r) results).
    { clear. induction results as [|r results IH]; simpl; [reflexivity|]. now rewrite IH. }
    rewrite Hzip. unfold GenerateHostsContent. cbv zeta. rewrite render_lines.
    unfold headerBlock. rewrite !append_assoc. reflexivity.
  - apply length_map.
  - intros i mark r Hmark Hr. rewrite list_lookup_fmap, Hr in Hmark.
    simpl in Hmark. injection Hmark as <-. apply Qle_bool_iff.
  - intros r _. split; [reflexivity|apply spaces_length].
Qed.

(** C10. When the output file can be created, [WriteHostsFile] returns no
    error and leaves in it exactly the text that [GenerateHostsContent]
    returns for the same results and the same timestamp; when it cannot,
    the error is returned and no file is touched. *)
Theorem WriteHostsFile_matches_GenerateHostsContent (hd : HostsDetector)
    (currentTime : string) (results : list HostResult) (s : State) :
  let '(err, s') := WriteHostsFile W hd currentTime results s in
  match os_Create W (outputFile hd) (clock s) with
  | None =>
      err = None /\
      files s' !! outputFile hd = Some (GenerateHostsContent W hd currentTime results)
  | Some e => err = Some e /\ files s' = files s
  end.
Proof.
  unfold WriteHostsFile, mbind, M_bind, now, fileStore. simpl.
  destruct (os_Create W (outputFile hd) (clock s)) as [e|]; simpl.
  - split; reflexivity.
  - split; [reflexivity|]. rewrite lookup_insert_eq. f_equal.
Qed.
End Rendering.

(** C6, as stated, fails: a result with a latency of 1500 ms, which is not
    the timeout value, is rendered with the timeout comment. *)
Lemma GenerateHostsContent_marks_above_timeout :
  ~ (Ping slowResult == timeoutLatency)%Q /\
  GenerateHostsContent quietWorld detector "2025-08-28 14:46:48" [slowResult]
    = headerBlock "2025-08-28 14:46:48" +:+
      "10.0.0.1" +:+ spaces 22 +:+ " a.example" +:+ "  # Timeout" +:+ newline.
Proof.
  split.
  - intros H. vm_compute in H. discriminate H.
  - vm_compute. reflexivity.
Qed.

(** ** The resolution pass *)

Section Pass.
Context (W : World) (sort_Slice : SliceSorter).

Lemma readDomainFile_unfold (hd : HostsDetector) (s : State) :
  readDomainFile W hd s =
    (match os_Open W (domainFile hd) (clock s) with
     | inr err => ([], Some err)
     | inl (lines, scanErr) => (scanDomains W lines, scanErr)
     end, s).
Proof.
  unfold readDomainFile, mbind, M_bind, now. simpl.
  destruct (os_Open W (domainFile hd) (clock s)) as [[lines scanErr]|err]; reflexivity.
Qed.

Lemma DetectHosts_unfold (hd : HostsDetector) (choices : list nat) (s : State)
    (lines : list string) :
  os_Open W (domainFile hd) (clock s) = inl (lines, None) ->
  scanDomains W lines <> [] ->
  DetectHosts W sort_Slice hd choices s =
    (sort_Slice HostResult (HostResult_less (domainOrderOf (scanDomains W lines)))
       (mapM (processHost W sort_Slice)
             (deliveryOrder (length (scanDomains W lines)) choices (scanDomains W lines))
             s).1,
     None,
     (mapM (processHost W sort_Slice)
           (deliveryOrder (length (scanDomains W lines)) choices (scanDomains W lines))
           s).2).
Proof.
  intros Hopen Hne. unfold DetectHosts, mbind, M_bind at 1.
  rewrite readDomainFile_unfold, Hopen.
  destruct (scanDomains W lines) as [|d0 ds] eqn:Hdom; [congruence|].
  rewrite <- Hdom.
  replace (length (scanDomains W lines) =? 0)%nat with false
    by (symmetry; apply Nat.eqb_neq; rewrite Hdom; discriminate).
  unfold mbind, M_bind, mret, M_ret.
  destruct (mapM (processHost W sort_Slice) _ s) as [results s']. reflexivity.
Qed.

(** C8. When the domain file cannot be opened, cannot be read to its end,
    or yields no domain, [DetectHosts] returns an error and no result, and
    leaves the state of the process as it found it: no DNS query, HTTP
    request or echo probe has been made. *)
Theorem DetectHosts_input_failure (hd : HostsDetector) (choices : list nat) (s : State) :
  (exists err, os_Open W (domainFile hd) (clock s) = inr err) \/
  (exists lines err, os_Open W (domainFile hd) (clock s) = inl (lines, Some err)) \/
  (exists lines, os_Open W (domainFile hd) (clock s) = inl (lines, None) /\
                 scanDomains W lines = []) ->
  exists message,
    DetectHosts W sort_Slice hd choices s = ([], Some message, s) /\
    trace (DetectHosts W sort_Slice hd choices s).2 = trace s.
Proof.
  intros Hfail. unfold DetectHosts, mbind, M_bind. rewrite readDomainFile_unfold.
  destruct Hfail as [(err & Hopen)|[(lines & err & Hopen)|(lines & Hopen & Hnone)]];
    rewrite Hopen.
  - eexists. split; reflexivity.
  - eexists. split; reflexivity.
  - rewrite Hnone. eexists. split; reflexivity.
Qed.
End Pass.

Lemma DetectHosts_input_failure_witness :
  exists message,
    DetectHosts quietWorld GoSort.Slice detector [] emptyState
      = ([], Some message, emptyState) /\
    trace (DetectHosts quietWorld GoSort.Slice detector [] emptyState).2 = trace emptyState.
Proof.
  apply (DetectHosts_input_failure quietWorld GoSort.Slice detector [] emptyState).
  left. exists "no such file". reflexivity.
Defined.

(** A pass over a readable, non-empty domain file does use the network. *)
Example DetectHosts_success_trace :
  (DetectHosts sampleWorld GoSort.Slice detector [] emptyState).1.2 = None /\
  trace (DetectHosts sampleWorld GoSort.Slice detector [] emptyState).2
    = [EvHTTP "https://sites.ipaddress.com/a.example";
       EvDNS "1.1.1.1:53" "a.example"; EvDNS "8.8.8.8:53" "a.example";
       EvPing "10.0.0.21"; EvPing "10.0.0.22";
       EvHTTP "https://sites.ipaddress.com/b.example";
       EvDNS "1.1.1.1:53" "b.example"; EvDNS "8.8.8.8:53" "b.example"].
Proof. split; vm_compute; reflexivity. Qed.

Lemma deliveryOrder_three {A : Type} (choices : list nat) (x y z : A) :
  In (deliveryOrder 3 choices [x; y; z])
     [[x; y; z]; [x; z; y]; [y; x; z]; [y; z; x]; [z; x; y]; [z; y; x]].
Proof.
  change (deliveryOrder 3 choices [x; y; z]) with
    (match [x; y; z] !! (hd 0%nat choices mod 3)%nat with
     | Some x0 =>
         x0 :: deliveryOrder 2 (tl choices) (delete (hd 0%nat choices mod 3)%nat [x; y; z])
     | None => []
     end).
  pose proof (Nat.mod_upper_bound (hd 0%nat choices) 3 ltac:(lia)) as H0.
  remember (hd 0%nat choices mod 3)%nat as i eqn:Hi. clear Hi.
  assert (Htwo : forall u v : A,
            deliveryOrder 2 (tl choices) [u; v] = [u; v] \/
            deliveryOrder 2 (tl choices) [u; v] = [v; u]).
  { intros u v.
    change (deliveryOrder 2 (tl choices) [u; v]) with
      (match [u; v] !! (hd 0%nat (tl choices) mod 2)%nat with
       | Some x0 =>
           x0 :: deliveryOrder 1 (tl (tl choices))
                   (delete (hd 0%nat (tl choices) mod 2)%nat [u; v])
       | None => []
       end).
    pose proof (Nat.mod_upper_bound (hd 0%nat (tl choices)) 2 ltac:(lia)) as H1.
    remember (hd 0%nat (tl choices) mod 2)%nat as j eqn:Hj. clear Hj.
    destruct j as [|[|j]]; [| |lia].
    - left. reflexivity.
    - right. reflexivity. }
  destruct i as [|[|[|i]]]; [| | |lia]; cbn [lookup list_lookup delete list_delete].
  - destruct (Htwo y z) as [-> | ->]; simpl; tauto.
  - destruct (Htwo x z) as [-> | ->]; simpl; tauto.
  - destruct (Htwo x y) as [-> | ->]; simpl; tauto.
Qed.

(** C2 fails on the code.  The domain file lists [a.example], [b.example],
    [a.example]; whatever the order in which the three tasks deliver, the
    results come back with [b.example] first. *)
Theorem DetectHosts_duplicate_domain_order (choices : list nat) :
  (readDomainFile duplicateDomainWorld detector emptyState).1
    = (["a.example"; "b.example"; "a.example"], None) /\
  map Domain
      (DetectHosts duplicateDomainWorld GoSort.Slice detector choices emptyState).1.1
    = ["b.example"; "a.example"; "a.example"].
Proof.
  split; [reflexivity|].
  rewrite (DetectHosts_unfold duplicateDomainWorld GoSort.Slice detector choices emptyState
             ["a.example"; "b.example"; "a.example"] eq_refl) by discriminate.
  change (scanDomains duplicateDomainWorld ["a.example"; "b.example"; "a.example"])
    with ["a.example"; "b.example"; "a.example"].
  change (length ["a.example"; "b.example"; "a.example"]) with 3%nat.
  destruct (deliveryOrder_three choices "a.example" "b.example" "a.example")
    as [H|[H|[H|[H|[H|[H|[]]]]]]]; rewrite <- H; vm_compute; reflexivity.
Qed.

(** ** The worker pool *)

Lemma countPhase_app (ph : Phase) (ts : list (string * Phase)) (d : string) (ph' : Phase) :
  countPhase ph (ts ++ [(d, ph')]) =
    (countPhase ph ts + if decide (ph' = ph) then 1 else 0)%nat.
Proof.
  unfold countPhase. rewrite filter_app, length_app. f_equal.
  rewrite filter_cons. simpl. destruct (decide (ph' = ph)); reflexivity.
Qed.

Lemma countPhase_insert (ph : Phase) (ts : list (string * Phase)) (i : nat)
    (d : string) (old new : Phase) :
  ts !! i = Some (d, old) ->
  (countPhase ph (<[i := (d, new)]> ts) + (if decide (old = ph) then 1 else 0)
   = countPhase ph ts + (if decide (new = ph) then 1 else 0))%nat.
Proof.
  unfold countPhase. revert i. induction ts as [|t ts IH]; intros [|i] Hi; try discriminate.
  - simpl in Hi. injection Hi as ->. simpl. rewrite !filter_cons. simpl.
    destruct (decide (old = ph)), (decide (new = ph)); simpl; lia.
  - simpl in Hi. specialize (IH i Hi). simpl. rewrite !filter_cons.
    destruct (decide (t.2 = ph)); simpl; lia.
Qed.

Lemma poolStep_invariant (a : Action) (p p' : Pool) :
  poolInvariant p -> poolStep a p = Some p' -> poolInvariant p'.
Proof.
  unfold poolInvariant, inPhase. intros [Hcount Hbound] Hstep.
  destruct a as [|i|i|i|]; simpl in Hstep.
  - destruct (unspawned p) as [|d ds]; [discriminate|]. injection Hstep as <-. simpl.
    rewrite !countPhase_app. simpl. split; lia.
  - destruct (tasks p !! i) as [[d ph]|] eqn:Hi; [|discriminate].
    destruct ph; try discriminate.
    destruct (semaphore p <? MaxConcurrent)%nat eqn:Hfree; [|discriminate].
    apply Nat.ltb_lt in Hfree. injection Hstep as <-. simpl.
    unfold setPhase. rewrite Hi.
    pose proof (countPhase_insert Processing _ _ _ _ Processing Hi) as H1.
    pose proof (countPhase_insert Reported _ _ _ _ Processing Hi) as H2.
    simpl in H1, H2. split; lia.
  - destruct (tasks p !! i) as [[d ph]|] eqn:Hi; [|discriminate].
    destruct ph; try discriminate.
    destruct (length (resultChan p) <? capacity p)%nat; [|discriminate].
    injection Hstep as <-. simpl. unfold setPhase. rewrite Hi.
    pose proof (countPhase_insert Processing _ _ _ _ Reported Hi) as H1.
    pose proof (countPhase_insert Reported _ _ _ _ Reported Hi) as H2.
    simpl in H1, H2. split; lia.
  - destruct (tasks p !! i) as [[d ph]|] eqn:Hi; [|discriminate].
    destruct ph; try discriminate.
    destruct (0 <? semaphore p)%nat eqn:Hheld; [|discriminate].
    apply Nat.ltb_lt in Hheld. injection Hstep as <-. simpl.
    unfold setPhase. rewrite Hi.
    pose proof (countPhase_insert Processing _ _ _ _ Finished Hi) as H1.
    pose proof (countPhase_insert Reported _ _ _ _ Finished Hi) as H2.
    simpl in H1, H2. split; lia.
  - destruct (resultChan p) as [|d rest]; [discriminate|]. injection Hstep as <-. simpl.
    split; lia.
Qed.

Lemma poolRun_invariant (actions : list Action) (p p' : Pool) :
  poolInvariant p -> poolRun actions p = Some p' -> poolInvariant p'.
Proof.
  revert p. induction actions as [|a actions IH]; intros p Hinv Hrun; simpl in Hrun.
  - now injection Hrun as <-.
  - destruct (poolStep a p) as [p1|] eqn:Hstep; [|discriminate].
    eapply IH; [|exact Hrun]. eapply poolStep_invariant; eassumption.
Qed.

(** C9. Whatever the list of domains and however the goroutines of a pass
    are interleaved, at every point of the run at most [MaxConcurrent] of
    them are inside [processHost]. *)
Theorem worker_pool_bound (domains : list string) (actions : list Action) (p : Pool) :
  poolRun actions (initialPool domains) = Some p ->
  (inPhase Processing p <= MaxConcurrent)%nat.
Proof.
  intros Hrun.
  assert (Hinit : poolInvariant (initialPool domains)).
  { unfold poolInvariant, MaxConcurrent. simpl. split; [reflexivity|lia]. }
  destruct (poolRun_invariant actions _ _ Hinit Hrun) as [Hcount Hbound]. lia.
Qed.

Lemma worker_pool_bound_witness :
  exists p,
    poolRun fullLoad (initialPool elevenDomains) = Some p /\
    inPhase Processing p = 10%nat /\
    inPhase Waiting p = 1%nat /\
    (inPhase Processing p <= MaxConcurrent)%nat.
Proof.
  eexists. split; [vm_compute; reflexivity|].
  split; [reflexivity|]. split; [reflexivity|].
  apply (worker_pool_bound elevenDomains fullLoad). reflexivity.
Defined.

(** With ten goroutines inside [processHost], the eleventh cannot pass its
    send on [semaphore]. *)
Example eleventh_goroutine_waits :
  poolRun (fullLoad ++ [Acquire 10]) (initialPool elevenDomains) = None.
Proof. reflexivity. Qed.

(** ** Order of the results of a pass *)

Lemma deliveryOrder_perm {A : Type} (choices : list nat) (pending : list A) :
  Permutation (deliveryOrder (length pending) choices pending) pending.
Proof.
  remember (length pending) as n eqn:Hn. revert choices pending Hn.
  induction n as [|n IH]; intros choices pending Hn.
  - destruct pending; [reflexivity|discriminate].
  - simpl. rewrite <- Hn.
    assert (Hi : (hd 0%nat choices mod S n < length pending)%nat).
    { rewrite <- Hn. apply Nat.mod_upper_bound. lia. }
    destruct (lookup_lt_is_Some_2 pending _ Hi) as [x Hx]. rewrite Hx.
    transitivity (x :: delete (hd 0%nat choices mod S n)%nat pending).
    + constructor. apply IH. rewrite length_delete by (now exists x). lia.
    + symmetry. now apply delete_Permutation.
Qed.

Lemma domainOrderOf_snoc (domains : list string) (d : string) :
  domainOrderOf (domains ++ [d]) = <[d := length domains]> (domainOrderOf domains).
Proof.
  unfold domainOrderOf. rewrite length_app.
  replace (length domains + length [d])%nat with (S (length domains)) by (simpl; lia).
  rewrite seq_S.
  rewrite zip_with_app by (now rewrite length_seq).
  rewrite foldl_app. reflexivity.
Qed.

Lemma domainOrderOf_lookup (domains : list string) (i : nat) (d : string) :
  NoDup domains -> domains !! i = Some d -> domainOrderOf domains !! d = Some i.
Proof.
  revert i d. induction domains as [|last domains IH] using rev_ind; intros i d Hnd Hi.
  - destruct i; discriminate.
  - rewrite domainOrderOf_snoc. apply NoDup_app in Hnd as (Hnd & Hfresh & _).
    destruct (decide (i < length domains)%nat) as [Hlt|Hge].
    + rewrite lookup_app_l in Hi by assumption.
      assert (Hne : last <> d).
      { intros ->. apply (Hfresh d); [eapply list_elem_of_lookup_2; eassumption|left]. }
      rewrite lookup_insert_ne by assumption. now apply IH.
    + rewrite lookup_app_r in Hi by lia.
      destruct (i - length domains)%nat as [|k] eqn:Hk; [|destruct k; discriminate].
      simpl in Hi. injection Hi as ->. rewrite lookup_insert_eq. f_equal. lia.
Qed.

Lemma Sorted_seq_le (start n : nat) : Sorted le (seq start n).
Proof.
  revert start. induction n as [|n IH]; intros start; simpl; constructor.
  - apply IH.
  - destruct n; simpl; constructor. lia.
Qed.

Lemma Sorted_map_inv {A B : Type} (f : A -> B) (R : B -> B -> Prop) (l : list A) :
  Sorted R (map f l) -> Sorted (fun x y => R (f x) (f y)) l.
Proof.
  induction l as [|x l IH]; simpl; intros Hs; constructor.
  - apply IH. now inversion Hs.
  - inversion Hs as [|? ? _ Hhd]; subst.
    destruct l; simpl in *; constructor. now inversion Hhd.
Qed.

Section PassOrder.
Context (W : World) (sort_Slice : SliceSorter).

Lemma processHost_Domain (domain : string) (s : State) :
  Domain (processHost W sort_Slice domain s).1 = domain.
Proof.
  unfold processHost, mbind, M_bind.
  destruct (getBestIP W sort_Slice domain s) as [[ip [e|]] s1]; [reflexivity|].
  destruct (pingCached W ip s1). reflexivity.
Qed.

Lemma mapM_processHost_domains (domains : list string) (s : State) :
  map Domain (mapM (processHost W sort_Slice) domains s).1 = domains.
Proof.
  revert s. induction domains as [|d domains IH]; intros s; [reflexivity|].
  simpl. unfold mbind, M_bind at 1.
  pose proof (processHost_Domain d s) as Hd.
  destruct (processHost W sort_Slice d s) as [r s1].
  specialize (IH s1). unfold mbind, M_bind at 1, mret, M_ret.
  destruct (mapM (processHost W sort_Slice) domains s1) as [rs s2].
  simpl in *. now rewrite Hd, IH.
Qed.

Lemma orderKey_sorted (domains : list string) :
  NoDup domains -> Sorted (fun x y => orderKey domains x <= orderKey domains y)%nat domains.
Proof.
  intros Hnd. apply Sorted_map_inv with (R := le).
  replace (map (orderKey domains) domains) with (seq 0 (length domains));
    [apply Sorted_seq_le|].
  apply list_eq. intros i. rewrite list_lookup_fmap.
  destruct (domains !! i) as [d|] eqn:Hi; simpl.
  - unfold orderKey. rewrite (domainOrderOf_lookup domains i d Hnd Hi). simpl.
    apply lookup_seq. apply lookup_lt_Some in Hi. lia.
  - apply lookup_seq_ge. apply lookup_ge_None in Hi. lia.
Qed.

Lemma orderKey_inj (domains : list string) (x y : string) :
  NoDup domains -> x ∈ domains -> y ∈ domains ->
  orderKey domains x = orderKey domains y -> x = y.
Proof.
  intros Hnd Hx Hy Hkey.
  apply list_elem_of_lookup in Hx as [i Hi]. apply list_elem_of_lookup in Hy as [j Hj].
  unfold orderKey in Hkey.
  rewrite (domainOrderOf_lookup _ _ _ Hnd Hi), (domainOrderOf_lookup _ _ _ Hnd Hj) in Hkey.
  simpl in Hkey. subst j. congruence.
Qed.

(** X24. When the domains of the file are pairwise distinct and the call of
    [sort.Slice] sorts the collected results, the results of a pass are in
    the order of the domain file, whatever the order of delivery. *)
Lemma DetectHosts_order_distinct (hd : HostsDetector) (choices : list nat) (s : State)
    (lines : list string) :
  os_Open W (domainFile hd) (clock s) = inl (lines, None) ->
  scanDomains W lines <> [] ->
  NoDup (scanDomains W lines) ->
  SortsSlice (HostResult_less (domainOrderOf (scanDomains W lines)))
    (mapM (processHost W sort_Slice)
          (deliveryOrder (length (scanDomains W lines)) choices (scanDomains W lines)) s).1
    (sort_Slice HostResult (HostResult_less (domainOrderOf (scanDomains W lines)))
       (mapM (processHost W sort_Slice)
             (deliveryOrder (length (scanDomains W lines)) choices (scanDomains W lines))
             s).1) ->
  exists results,
    (DetectHosts W sort_Slice hd choices s).1 = (results, None) /\
    map Domain results = scanDomains W lines.
Proof.
  intros Hopen Hne Hnd [Hperm Hsorted].
  rewrite (DetectHosts_unfold W sort_Slice hd choices s lines Hopen Hne).
  set (domains := scanDomains W lines) in *.
  pose proof (mapM_processHost_domains
                (deliveryOrder (length domains) choices domains) s) as Hdomains.
  set (results := (mapM (processHost W sort_Slice)
                        (deliveryOrder (length domains) choices domains) s).1) in *.
  set (sorted := sort_Slice HostResult (HostResult_less (domainOrderOf domains)) results) in *.
  exists sorted. split; [reflexivity|].
  assert (HpermD : Permutation (map Domain sorted) domains).
  { rewrite <- (Permutation_map Domain Hperm), Hdomains. apply deliveryOrder_perm. }
  apply (Sorted_unique_strong
           (fun x y => orderKey domains x <= orderKey domains y)%nat
           (Transitive0 := fun x y z Hxy Hyz => Nat.le_trans _ _ _ Hxy Hyz)).
  - intros x y Hx Hy Hxy Hyx. apply (orderKey_inj domains); [assumption| |assumption|lia].
    now rewrite <- HpermD.
  - apply (Sorted_fmap Domain)
      with (R1 := fun x y => HostResult_less (domainOrderOf domains) y x = false);
      [|assumption].
    intros x y Hless. unfold HostResult_less in Hless. apply Nat.ltb_ge in Hless. exact Hless.
  - now apply orderKey_sorted.
  - exact HpermD.
Qed.
End PassOrder.

(** * Further properties of the code *)

(** ** Reading the domain file *)

Lemma index_hash_cons (b : Ascii.ascii) (line : string) :
  String.index 0 "#" (String b line) =
    if Ascii.ascii_dec hashChar b then Some 0%nat
    else match String.index 0 "#" line with
         | Some n => Some (S n)
         | None => None
         end.
Proof.
  change (String.index 0 "#" (String b line)) with
    (if (if Ascii.ascii_dec hashChar b then String.prefix "" line else false)
     then Some 0%nat
     else match String.index 0 "#" line with
          | Some n => Some (S n)
          | None => None
          end).
  destruct (Ascii.ascii_dec hashChar b); [|reflexivity].
  destruct line; reflexivity.
Qed.

Lemma index_hash_cut (line : string) (idx : nat) :
  String.index 0 "#" line = Some idx -> hashFree (String.substring 0 idx line).
Proof.
  unfold hashFree. revert idx. induction line as [|b line IH]; intros idx Hidx.
  - discriminate Hidx.
  - rewrite index_hash_cons in Hidx.
    destruct (Ascii.ascii_dec hashChar b) as [Heq|Hne].
    + injection Hidx as <-. destruct line; reflexivity.
    + destruct (String.index 0 "#" line) as [n|] eqn:Hrest; [|discriminate].
      injection Hidx as <-.
      change (String.substring 0 (S n) (String b line))
        with (String b (String.substring 0 n line)).
      rewrite index_hash_cons.
      destruct (Ascii.ascii_dec hashChar b) as [Heq|_]; [contradiction|].
      now rewrite (IH n eq_refl).
Qed.

Section DomainFile.
Context (W : World).

(** What one scanned line adds to the domains. *)
Lemma scanDomains_snoc (lines : list string) (text : string) :
  scanDomains W (lines ++ [text]) = scanDomains W lines ++ scanDomains W [text].
Proof.
  unfold scanDomains. rewrite foldl_app. simpl.
  destruct (String.eqb (strings_TrimSpace W text) "" ||
            String.prefix "#" (strings_TrimSpace W text)); [now rewrite app_nil_r|].
  destruct (negb (String.eqb _ "")); [reflexivity|now rewrite app_nil_r].
Qed.

Lemma scanDomains_line (text : string) (d : string) :
  In d (scanDomains W [text]) ->
  d <> "" /\
  (d = strings_TrimSpace W text /\ hashFree d \/
   exists cut, hashFree cut /\ d = strings_TrimSpace W cut).
Proof.
  unfold scanDomains. simpl.
  destruct (String.eqb (strings_TrimSpace W text) "") eqn:Hempty; simpl; [tauto|].
  destruct (String.prefix "#" (strings_TrimSpace W text)); simpl; [tauto|].
  destruct (String.index 0 "#" (strings_TrimSpace W text)) as [idx|] eqn:Hidx.
  - destruct (String.eqb (strings_TrimSpace W (String.substring 0 idx _)) "") eqn:Hcut;
      simpl; [tauto|].
    intros [<-|[]]. split; [now apply String.eqb_neq|].
    right. eexists. split; [|reflexivity]. now apply index_hash_cut.
  - rewrite Hempty. simpl. intros [<-|[]]. split; [now apply String.eqb_neq|].
    left. split; [reflexivity|exact Hidx].
Qed.

(** X1. The domains read from the file keep the order of its lines: reading
    the lines of two blocks one after the other gives the domains of the
    first block followed by those of the second.  No domain is the empty
    string, and there are at most as many domains as lines. *)
Theorem scanDomains_in_order (lines1 lines2 : list string) :
  scanDomains W (lines1 ++ lines2) = scanDomains W lines1 ++ scanDomains W lines2 /\
  (forall d, In d (scanDomains W lines1) -> d <> "") /\
  (length (scanDomains W lines1) <= length lines1)%nat.
Proof.
  split; [|split].
  - induction lines2 as [|text lines2 IH] using rev_ind.
    + now rewrite !app_nil_r.
    + rewrite app_assoc, !scanDomains_snoc, IH. now rewrite app_assoc.
  - induction lines1 as [|text lines1 IH] using rev_ind; [intros d []|].
    intros d. rewrite scanDomains_snoc, in_app_iff. intros [Hd|Hd]; [now apply IH|].
    now apply (scanDomains_line text d).
  - induction lines1 as [|text lines1 IH] using rev_ind; [reflexivity|].
    rewrite scanDomains_snoc, !length_app. simpl (length [text]).
    assert (Hone : (length (scanDomains W [text]) <= 1)%nat).
    { unfold scanDomains. simpl.
      destruct (String.eqb (strings_TrimSpace W text) "" ||
                String.prefix "#" (strings_TrimSpace W text)); [simpl; lia|].
      destruct (negb (String.eqb _ "")); simpl; lia. }
    lia.
Qed.

(** X2. When [strings.TrimSpace] does not add a [#] to a string that has
    none (it returns a part of its argument), no domain read from the file
    contains a [#]: comments are removed entirely. *)
Theorem scanDomains_no_hash (lines : list string) (d : string) :
  (forall s, hashFree s -> hashFree (strings_TrimSpace W s)) ->
  In d (scanDomains W lines) -> hashFree d.
Proof.
  intros Htrim. induction lines as [|text lines IH] using rev_ind; [intros []|].
  rewrite scanDomains_snoc, in_app_iff. intros [Hd|Hd]; [now apply IH|].
  destruct (scanDomains_line text d Hd) as [_ [[_ Hfree]|(cut & Hcut & ->)]].
  - exact Hfree.
  - now apply Htrim.
Qed.
End DomainFile.

Lemma scanDomains_no_hash_witness :
  hashFree "b.example " /\
  In "b.example " (scanDomains sampleWorld ["# list"; "b.example # mirror"; ""]).
Proof.
  assert (Hin : In "b.example "
                   (scanDomains sampleWorld ["# list"; "b.example # mirror"; ""])).
  { vm_compute. now left. }
  split; [|exact Hin].
  apply (scanDomains_no_hash sampleWorld ["# list"; "b.example # mirror"; ""]).
  - intros s Hs. exact Hs.
  - exact Hin.
Defined.

(** ** The latency cache *)

Section CacheFacts.
Context (W : World).

(** X3. [pingCached] never disturbs what is there: it leaves the files and
    every cache entry of another address as they are, it does not change an
    entry that exists (a cached address costs nothing: the state stays as it
    is), and the only network operation it may add is one run of echo
    requests to its own address. *)
Theorem pingCached_frame (ip : string) (s : State) :
  files (pingCached W ip s).2 = files s /\
  (forall k, k <> ip -> PingCache (pingCached W ip s).2 !! k = PingCache s !! k) /\
  (forall v, PingCache s !! ip = Some v ->
             pingCached W ip s = (v, s)) /\
  (trace (pingCached W ip s).2 = trace s \/
   trace (pingCached W ip s).2 = trace s ++ [EvPing ip]).
Proof.
  destruct (PingCache s !! ip) as [u|] eqn:Hcache.
  - rewrite (pingCached_hit W ip s u Hcache). simpl.
    repeat split; [|left; reflexivity]. intros v Hv. congruence.
  - destruct (ping_NewPinger W ip) as [err|] eqn:Hnew.
    + rewrite (pingCached_no_pinger W ip s err Hcache Hnew). simpl.
      repeat split; [discriminate|left; reflexivity].
    + rewrite (pingCached_probe W ip s Hcache Hnew). simpl.
      split; [reflexivity|]. split; [|split; [discriminate|right; reflexivity]].
      intros k Hk. now rewrite lookup_insert_ne.
Qed.

Lemma probeAll_probes (ipList : list string) (s : State) :
  exists probed,
    trace (probeAll W ipList s).2 = trace s ++ map EvPing probed /\
    sublist probed ipList /\
    files (probeAll W ipList s).2 = files s /\
    forall ip, In ip probed -> PingCache s !! ip = None /\ ping_NewPinger W ip = None.
Proof.
  revert s. induction ipList as [|ip ipList IH]; intros s.
  - exists []. simpl. rewrite app_nil_r.
    split; [reflexivity|]. split; [constructor|]. split; [reflexivity|intros ip []].
  - rewrite probeAll_cons.
    destruct (PingCache s !! ip) as [u|] eqn:Hcache;
      [|destruct (ping_NewPinger W ip) as [err|] eqn:Hnew].
    + rewrite (pingCached_hit W ip s u Hcache).
      destruct (IH s) as (probed & Htr & Hsub & Hf & Hall).
      destruct (probeAll W ipList s) as [rest s2]. simpl in *.
      exists probed. split; [assumption|]. split; [now apply sublist_cons|].
      split; assumption.
    + rewrite (pingCached_no_pinger W ip s err Hcache Hnew).
      destruct (IH s) as (probed & Htr & Hsub & Hf & Hall).
      destruct (probeAll W ipList s) as [rest s2]. simpl in *.
      exists probed. split; [assumption|]. split; [now apply sublist_cons|].
      split; assumption.
    + rewrite (pingCached_probe W ip s Hcache Hnew).
      set (s1 := mkState _ _ _).
      destruct (IH s1) as (probed & Htr & Hsub & Hf & Hall).
      destruct (probeAll W ipList s1) as [rest s2]. simpl in *.
      exists (ip :: probed). split; [|split; [|split]].
      * rewrite Htr. simpl. now rewrite <- app_assoc.
      * now apply sublist_skip.
      * exact Hf.
      * intros x [<-|Hx]; [now split|].
        destruct (Hall x Hx) as [Hmiss Hnew']. split; [|assumption].
        apply lookup_insert_None in Hmiss. tauto.
Qed.
End CacheFacts.

(** ** Selection *)

Section SelectionFacts.
Context (W : World) (sort_Slice : SliceSorter).

Lemma selectBestIP_state (ipList : list string) (s : State) :
  (selectBestIP W sort_Slice ipList s).2 = (probeAll W ipList s).2.
Proof.
  destruct ipList as [|ip ipList]; [reflexivity|].
  now rewrite selectBestIP_unfold by discriminate.
Qed.

(** X5. The echo probes that [selectBestIP] runs are runs to candidates, in
    the order of the list and at most one per entry, and only to addresses
    that had no cache entry when it was called; it performs no other
    network operation and writes no file. *)
Theorem selectBestIP_probes (ipList : list string) (s : State) :
  exists probed,
    trace (selectBestIP W sort_Slice ipList s).2 = trace s ++ map EvPing probed /\
    sublist probed ipList /\
    files (selectBestIP W sort_Slice ipList s).2 = files s /\
    forall ip, In ip probed -> PingCache s !! ip = None /\ ping_NewPinger W ip = None.
Proof. rewrite selectBestIP_state. apply probeAll_probes. Qed.

(** X6. When one candidate is strictly faster than every other, it is the
    one [selectBestIP] returns, whatever way [sort.Slice] has of sorting:
    if every probed candidate that is at most as slow as [fastest] has the
    address of [fastest], that address is returned. *)
Theorem selectBestIP_unique_fastest (ipList : list string) (s : State) (fastest : ipPing) :
  SortsSlice ipPing_less (probeAll W ipList s).1
             (sort_Slice ipPing ipPing_less (probeAll W ipList s).1) ->
  In fastest (probeAll W ipList s).1 ->
  (forall r, In r (probeAll W ipList s).1 ->
             (ipPing_Ping r <= ipPing_Ping fastest)%Q -> ipPing_IP r = ipPing_IP fastest) ->
  (selectBestIP W sort_Slice ipList s).1 = ipPing_IP fastest.
Proof.
  intros [Hperm Hsorted] Hin Honly.
  assert (Hne : ipList <> []).
  { intros ->. destruct Hin. }
  rewrite (selectBestIP_unfold W sort_Slice ipList s Hne). simpl.
  set (results := (probeAll W ipList s).1) in *.
  destruct (sort_Slice ipPing ipPing_less results) as [|best sorted] eqn:Hsort.
  - apply Permutation_sym, Permutation_nil in Hperm. rewrite Hperm in Hin. destruct Hin.
  - apply Honly.
    + eapply Permutation_in; [symmetry; exact Hperm|]. now left.
    + eapply Permutation_in in Hin; [|exact Hperm].
      destruct Hin as [Heq|Hin]; [rewrite Heq; apply Qle_refl|].
      apply Sorted.Sorted_StronglySorted in Hsorted.
      * apply StronglySorted_inv in Hsorted. destruct Hsorted as [_ Hall].
        apply ipPing_less_false. now apply (proj1 (List.Forall_forall _ _) Hall).
      * intros x y z Hxy Hyz. apply ipPing_less_false.
        apply ipPing_less_false in Hxy, Hyz. eapply Qle_trans; eassumption.
Qed.
End SelectionFacts.

Lemma selectBestIP_unique_fastest_witness :
  (selectBestIP (answeringWorld thirteenRtts) GoSort.Slice
                ["10.0.0.21"; "10.0.0.22"] emptyState).1 = "10.0.0.22".
Proof.
  apply (selectBestIP_unique_fastest (answeringWorld thirteenRtts) GoSort.Slice
           ["10.0.0.21"; "10.0.0.22"] emptyState
           (mkIpPing "10.0.0.22" (rttMilliseconds 15000000))).
  - vm_compute. split; [apply perm_swap|repeat constructor].
  - vm_compute. tauto.
  - intros r Hr Hle. vm_compute in Hr. destruct Hr as [<-|[<-|[]]]; [|reflexivity].
    vm_compute in Hle. exfalso. now apply Hle.
Defined.

(** ** Discovery and aggregation *)

Lemma resolverAnswers_length (W : World) (servers : list string) (domain : string) (t : nat) :
  length (resolverAnswers W servers domain t) = length servers.
Proof.
  revert t. induction servers as [|server servers IH]; intros t; simpl; [reflexivity|].
  now rewrite IH.
Qed.

Lemma leb_ne_ltb (a b : string) : String.leb a b = true -> a <> b -> String.ltb a b = true.
Proof.
  unfold String.leb, String.ltb. intros Hle Hne.
  destruct (String.compare a b) eqn:Hcmp; [|reflexivity|discriminate].
  apply String.compare_eq_iff in Hcmp. contradiction.
Qed.

Lemma dnsQueries_filter (servers : list string) (domain : string) :
  List.filter isHTTP (dnsQueries servers domain) = [] /\
  List.filter isDNS (dnsQueries servers domain) = dnsQueries servers domain /\
  List.filter isPing (dnsQueries servers domain) = [].
Proof.
  unfold dnsQueries. induction servers as [|server servers (IH1 & IH2 & IH3)]; simpl.
  - repeat split.
  - split; [exact IH1|]. split; [now rewrite IH2|exact IH3].
Qed.

Section AggregationFacts.
Context (W : World) (sort_Slice : SliceSorter).

Lemma getIPFromWeb_effect (domain : string) (s : State) :
  (getIPFromWeb W domain s).2 =
    mkState (PingCache s) (files s) (trace s ++ webRequests W domain).
Proof.
  unfold getIPFromWeb, webRequests, requestBuilt, mbind, M_bind, now, emit.
  destruct (http_NewRequest W _) as [err|]; simpl.
  - destruct s; simpl. now rewrite app_nil_r.
  - destruct (http_Get W _ (clock s)); reflexivity.
Qed.

Lemma webRequests_filter (domain : string) :
  List.filter isHTTP (webRequests W domain) = webRequests W domain /\
  List.filter isDNS (webRequests W domain) = [] /\
  List.filter isPing (webRequests W domain) = [] /\
  length (webRequests W domain) = if requestBuilt W domain then 1%nat else 0%nat.
Proof. unfold webRequests. destruct (requestBuilt W domain); repeat split. Qed.

Lemma getIPFromDNS_effect (domain : string) (s : State) :
  exists n,
    (1 <= n <= length DNSServers)%nat /\
    trace (getIPFromDNS W domain s).2 = trace s ++ dnsQueries (take n DNSServers) domain /\
    PingCache (getIPFromDNS W domain s).2 = PingCache s /\
    files (getIPFromDNS W domain s).2 = files s.
Proof.
  pose proof (getIPFromDNS_loop_spec W DNSServers domain s) as Hloop.
  unfold getIPFromDNS, mbind, M_bind, mret, M_ret.
  destruct (getIPFromDNS_loop W DNSServers domain [] s) as [allIPs s']. simpl.
  destruct Hloop as (Hc & Hf & [(k & ips & Hk & _ & _ & _ & Htr)|(_ & _ & Htr)]).
  - apply lookup_lt_Some in Hk. rewrite resolverAnswers_length in Hk.
    change (length DNSServers) with 4%nat in *.
    exists (S k). split; [lia|]. split; [exact Htr|]. split; assumption.
  - exists (length DNSServers). split; [change (length DNSServers) with 4%nat; lia|]. split; [|split; assumption].
    now rewrite firstn_all.
Qed.

Lemma afterSources_effect (domain : string) (s : State) :
  exists n,
    (1 <= n <= length DNSServers)%nat /\
    trace (afterSources W domain s) =
      trace s ++ webRequests W domain ++ dnsQueries (take n DNSServers) domain /\
    PingCache (afterSources W domain s) = PingCache s /\
    files (afterSources W domain s) = files s.
Proof.
  unfold afterSources.
  destruct (getIPFromDNS_effect domain (getIPFromWeb W domain s).2)
    as (n & Hn & Htr & Hc & Hf).
  rewrite getIPFromWeb_effect in Htr, Hc, Hf |- *. simpl in Htr, Hc, Hf.
  exists n. split; [exact Hn|]. split; [|split; assumption].
  rewrite Htr. now rewrite <- app_assoc.
Qed.

(** X7. A domain for which no valid candidate is found costs at most one
    call of [client.Do] (one when [http.NewRequest] accepts the URL of the
    domain, none when it does not) and between one and four calls of
    [c.Exchange], for the resolvers in the order of [DNSServers], and
    nothing else: [getBestIP] returns its error without a call of
    [pinger.Run], and leaves the cache and the files as they are. *)
Theorem getBestIP_failure_no_probe (domain : string) (s : State) :
  candidatesOf W domain s = ∅ ->
  (getBestIP W sort_Slice domain s).1 = ("", Some "未找到有效IP地址") /\
  PingCache (getBestIP W sort_Slice domain s).2 = PingCache s /\
  files (getBestIP W sort_Slice domain s).2 = files s /\
  httpRequests (getBestIP W sort_Slice domain s).2
    = (httpRequests s + if requestBuilt W domain then 1 else 0)%nat /\
  (exists n,
     (1 <= n <= 4)%nat /\
     List.filter isDNS (trace (getBestIP W sort_Slice domain s).2) =
       List.filter isDNS (trace s) ++ dnsQueries (take n DNSServers) domain) /\
  List.filter isPing (trace (getBestIP W sort_Slice domain s).2)
    = List.filter isPing (trace s).
Proof.
  intros Hnone.
  assert (Hrun : getBestIP W sort_Slice domain s
                 = ("", Some "未找到有效IP地址", afterSources W domain s))
    by (rewrite getBestIP_unfold, Hnone; reflexivity).
  rewrite Hrun. simpl.
  destruct (afterSources_effect domain s) as (n & Hn & Htr & Hc & Hf).
  split; [reflexivity|]. split; [exact Hc|]. split; [exact Hf|].
  unfold httpRequests. rewrite Htr, !List.filter_app.
  destruct (dnsQueries_filter (take n DNSServers) domain) as (-> & -> & ->).
  destruct (webRequests_filter domain) as (-> & -> & -> & Hlen).
  split; [now rewrite app_nil_r, length_app, Hlen|].
  split; [exists n; split; [exact Hn|reflexivity]|].
  now rewrite !app_nil_r.
Qed.

(** X8. Which source gave an address, in which order and how often does not
    matter: two lists of answers with the same members give the same list
    of candidates. *)
Theorem candidates_depend_on_members (ips ips' : list string) :
  (forall ip, In ip ips <-> In ip ips') ->
  GoSort.Strings (elements (collectCandidates W ips)) =
  GoSort.Strings (elements (collectCandidates W ips')).
Proof.
  intros Hsame. f_equal. f_equal. apply set_eq. intros ip.
  rewrite !collectCandidates_spec, Hsame. reflexivity.
Qed.

(** X9. The list of candidates handed to [selectBestIP] is strictly
    ascending in the bytewise order of strings: sorted, and free of
    duplicates. *)
Theorem candidate_list_strictly_ascending (ips : list string) :
  Sorted (fun a b => String.ltb a b = true)
         (GoSort.Strings (elements (collectCandidates W ips))).
Proof.
  assert (Hnd : NoDup (GoSort.Strings (elements (collectCandidates W ips)))).
  { unfold GoSort.Strings. rewrite (ascending_perm String.leb). apply NoDup_elements. }
  pose proof (Strings_sorted (elements (collectCandidates W ips))) as Hs.
  induction Hs as [|x l Hs IH Hhd]; [constructor|].
  apply NoDup_cons in Hnd as [Hx Hnd]. constructor; [now apply IH|].
  destruct Hhd as [|y l Hxy]; constructor.
  apply leb_ne_ltb; [assumption|]. intros ->. apply Hx. now left.
Qed.
End AggregationFacts.

Lemma getBestIP_failure_no_probe_witness :
  (getBestIP malformedWorld GoSort.Slice "%zz" emptyState).1
    = ("", Some "未找到有效IP地址") /\
  PingCache (getBestIP malformedWorld GoSort.Slice "%zz" emptyState).2 = ∅ /\
  httpRequests (getBestIP malformedWorld GoSort.Slice "%zz" emptyState).2 = 0%nat.
Proof.
  destruct (getBestIP_failure_no_probe malformedWorld GoSort.Slice "%zz" emptyState)
    as (Hres & Hcache & _ & Hhttp & _).
  - reflexivity.
  - split; [exact Hres|]. split; [exact Hcache|exact Hhttp].
Defined.

Lemma candidates_depend_on_members_witness :
  GoSort.Strings (elements (collectCandidates sampleWorld ["10.0.0.2"; "10.0.0.1"; "10.0.0.2"])) =
  GoSort.Strings (elements (collectCandidates sampleWorld ["10.0.0.1"; "10.0.0.2"])).
Proof.
  apply (candidates_depend_on_members sampleWorld).
  intros ip. simpl. tauto.
Defined.

(** ** One domain: [processHost] *)

Section HostFacts.
Context (W : World) (sort_Slice : SliceSorter).

(** Asking [pingCached] again, after the probing loop, for a candidate the
    loop has probed gives the latency the loop obtained and changes nothing. *)

Lemma getBestIP_state (domain : string) (s : State) :
  (getBestIP W sort_Slice domain s).2 =
    if (size (candidatesOf W domain s) =? 0)%nat then afterSources W domain s
    else (probeAll W (GoSort.Strings (elements (candidatesOf W domain s)))
                   (afterSources W domain s)).2.
Proof.
  rewrite getBestIP_unfold.
  destruct (size (candidatesOf W domain s) =? 0)%nat; [reflexivity|].
  rewrite <- selectBestIP_state with (sort_Slice := sort_Slice).
  now destruct (selectBestIP W sort_Slice _ (afterSources W domain s)).
Qed.

Lemma size_zero_empty (X : gset string) : (size X =? 0)%nat = true <-> X = ∅.
Proof.
  rewrite Nat.eqb_eq. split.
  - intros Hz. apply leibniz_equiv. now apply size_empty_iff.
  - intros ->. apply size_empty.
Qed.

(** X10. A result of [processHost] carries the domain it was asked for, and
    an error exactly when no valid candidate was found for it.  Then the
    place of the address holds the not-found marker and the latency is
    zero: such a result is never marked as timed out. *)
Theorem processHost_result (domain : string) (s : State) :
  Domain (processHost W sort_Slice domain s).1 = domain /\
  (Error (processHost W sort_Slice domain s).1 = "" <-> candidatesOf W domain s <> ∅) /\
  (candidatesOf W domain s = ∅ ->
   (processHost W sort_Slice domain s).1
     = mkHostResult domain "# IP Address Not Found" 0 "未找到有效IP地址" /\
   Qgeb (Ping (processHost W sort_Slice domain s).1) timeoutLatency = false).
Proof.
  unfold processHost, mbind, M_bind. rewrite getBestIP_unfold.
  destruct (size (candidatesOf W domain s) =? 0)%nat eqn:Hsize.
  - apply size_zero_empty in Hsize. simpl.
    split; [reflexivity|]. split; [|intros _; split; reflexivity].
    split; [discriminate|congruence].
  - assert (Hne : candidatesOf W domain s <> ∅).
    { intros Hz. apply size_zero_empty in Hz. congruence. }
    destruct (selectBestIP W sort_Slice _ (afterSources W domain s)) as [ip s1]. simpl.
    destruct (pingCached W ip s1) as [ping s2]. simpl.
    split; [reflexivity|]. split; [tauto|contradiction].
Qed.

Lemma pingCached_trace (ip : string) (s : State) :
  exists pings, trace (pingCached W ip s).2 = trace s ++ map EvPing pings.
Proof.
  destruct (PingCache s !! ip) as [u|] eqn:Hcache.
  - exists []. rewrite (pingCached_hit W ip s u Hcache). simpl. now rewrite app_nil_r.
  - destruct (ping_NewPinger W ip) as [err|] eqn:Hnew.
    + exists []. rewrite (pingCached_no_pinger W ip s err Hcache Hnew). simpl.
      now rewrite app_nil_r.
    + exists [ip]. now rewrite (pingCached_probe W ip s Hcache Hnew).
Qed.

(** The network operations of one [processHost]: the request for the page,
    the queries to the first [n] resolvers, then echo probes. *)
Lemma processHost_trace (domain : string) (s : State) :
  exists n pings,
    (1 <= n <= 4)%nat /\
    trace (processHost W sort_Slice domain s).2 =
      trace s ++ webRequests W domain
              ++ dnsQueries (take n DNSServers) domain ++ map EvPing pings.
Proof.
  destruct (afterSources_effect W domain s) as (n & Hn & Htr & _ & _).
  unfold processHost, mbind, M_bind. rewrite getBestIP_unfold.
  destruct (size (candidatesOf W domain s) =? 0)%nat.
  - exists n, []. split; [exact Hn|]. simpl. now rewrite Htr, app_nil_r.
  - pose proof (selectBestIP_state W sort_Slice
                  (GoSort.Strings (elements (candidatesOf W domain s)))
                  (afterSources W domain s)) as Hstate.
    destruct (probeAll_probes W (GoSort.Strings (elements (candidatesOf W domain s)))
                (afterSources W domain s)) as (probed & Hprobed & _).
    destruct (selectBestIP W sort_Slice _ (afterSources W domain s)) as [ip s1].
    simpl in Hstate. subst s1.
    destruct (pingCached_trace ip
                (probeAll W (GoSort.Strings (elements (candidatesOf W domain s)))
                          (afterSources W domain s)).2) as [pings Hpings].
    destruct (pingCached W ip _) as [ping s2]. simpl in *.
    exists n, (probed ++ pings). split; [exact Hn|].
    rewrite Hpings, Hprobed, Htr, map_app.
    repeat rewrite <- app_assoc. reflexivity.
Qed.
Lemma getBestIP_settles (domain : string) (s : State) :
  candidatesOf W domain s <> ∅ ->
  Permutation
    (probeAll W (GoSort.Strings (elements (candidatesOf W domain s)))
              (afterSources W domain s)).1
    (sort_Slice ipPing ipPing_less
       (probeAll W (GoSort.Strings (elements (candidatesOf W domain s)))
                 (afterSources W domain s)).1) ->
  settled W (getBestIP W sort_Slice domain s).1.1 (getBestIP W sort_Slice domain s).2.
Proof.
  intros Hne Hperm.
  assert (Hsize : (size (candidatesOf W domain s) =? 0)%nat = false).
  { destruct (size (candidatesOf W domain s) =? 0)%nat eqn:Hs; [|reflexivity].
    apply size_zero_empty in Hs. contradiction. }
  set (ipList := GoSort.Strings (elements (candidatesOf W domain s))) in *.
  set (s0 := afterSources W domain s) in *.
  assert (HipList : ipList <> []).
  { intros Hnil. apply Hne. apply set_eq. intros ip.
    rewrite <- (Strings_elements (candidatesOf W domain s) ip). fold ipList.
    rewrite Hnil, elem_of_empty. simpl. tauto. }
  pose proof (probeAll_IPs W ipList s0) as HIPs.
  rewrite getBestIP_unfold, Hsize.
  fold ipList s0. rewrite (selectBestIP_unfold W sort_Slice ipList s0 HipList).
  destruct (sort_Slice ipPing ipPing_less (probeAll W ipList s0).1)
    as [|best sorted] eqn:Hsort.
  - apply Permutation_sym, Permutation_nil in Hperm.
    rewrite Hperm in HIPs. simpl in HIPs. congruence.
  - assert (Hin : In (ipPing_IP best) ipList).
    { rewrite <- HIPs. apply in_map.
      eapply Permutation_in; [symmetry; exact Hperm|]. now left. }
    cbn [fst snd]. unfold settled.
    destruct (ping_NewPinger W (ipPing_IP best)) as [err|] eqn:Hnew;
      [right; congruence|].
    left. now apply probeAll_cached.
Qed.

(** X11. The call of [pingCached] with which [processHost] reads the latency
    of the chosen address never reaches [pinger.Run].  When the sort in
    [selectBestIP] keeps the candidates it is given, the selection has
    called [pingCached] for the address it returns, so the address has an
    entry in the cache or no pinger can be created for it; this stays so
    whatever other goroutines do to the cache in between (they only add or
    overwrite entries), and the call then goes from its check of the cache
    to its return, whatever calls run beside it and however their steps are
    interleaved with its own. *)
Theorem processHost_final_read_never_probes (domain : string) (s s' : State)
    (others : list Call) (schedule : list nat) :
  candidatesOf W domain s <> ∅ ->
  Permutation
    (probeAll W (GoSort.Strings (elements (candidatesOf W domain s)))
              (afterSources W domain s)).1
    (sort_Slice ipPing ipPing_less
       (probeAll W (GoSort.Strings (elements (candidatesOf W domain s)))
                 (afterSources W domain s)).1) ->
  (forall k, is_Some (PingCache (getBestIP W sort_Slice domain s).2 !! k) ->
             is_Some (PingCache s' !! k)) ->
  exists c,
    (runCalls W schedule (AtCheck (getBestIP W sort_Slice domain s).1.1 :: others) s').1
      !! 0%nat = Some c /\
    pastProbe W (getBestIP W sort_Slice domain s).1.1 c.
Proof.
  intros Hne Hperm Hgrow.
  pose proof (getBestIP_settles domain s Hne Hperm) as Hset.
  apply (settled_mono W _ _ s' Hgrow) in Hset.
  now destruct (pingCached_settled_never_probes W _
                  (AtCheck (getBestIP W sort_Slice domain s).1.1 :: others) 0
                  schedule s' Hset eq_refl).
Qed.
End HostFacts.

Lemma processHost_final_read_never_probes_witness :
  exists c,
    (runCalls sampleWorld [1; 0; 1; 0; 1]%nat
       [AtCheck (getBestIP sampleWorld GoSort.Slice "a.example" emptyState).1.1;
        AtCheck "10.0.0.22"]
       (getBestIP sampleWorld GoSort.Slice "a.example" emptyState).2).1 !! 0%nat = Some c /\
    pastProbe sampleWorld (getBestIP sampleWorld GoSort.Slice "a.example" emptyState).1.1 c.
Proof.
  apply (processHost_final_read_never_probes sampleWorld GoSort.Slice "a.example"
           emptyState (getBestIP sampleWorld GoSort.Slice "a.example" emptyState).2
           [AtCheck "10.0.0.22"] [1; 0; 1; 0; 1]%nat).
  - intros Hempty.
    assert (Hin : "10.0.0.21" ∈ candidatesOf sampleWorld "a.example" emptyState).
    { apply collectCandidates_spec. vm_compute. intuition discriminate. }
    rewrite Hempty in Hin. now apply elem_of_empty in Hin.
  - vm_compute. apply perm_swap.
  - auto.
Defined.

(** ** A whole pass: [DetectHosts] *)

Lemma filter_isHTTP_none (domain : string) (servers pings : list string) :
  List.filter isHTTP (dnsQueries servers domain ++ map EvPing pings) = [].
Proof.
  rewrite List.filter_app. unfold dnsQueries.
  assert (H1 : List.filter isHTTP (map (fun server => EvDNS server domain) servers) = [])
    by (induction servers; simpl; auto).
  assert (H2 : List.filter isHTTP (map EvPing pings) = [])
    by (induction pings; simpl; auto).
  now rewrite H1, H2.
Qed.

Lemma filter_isDNS_count (domain : string) (servers pings : list string) :
  length (List.filter isDNS (dnsQueries servers domain ++ map EvPing pings))
    = length servers.
Proof.
  rewrite List.filter_app, length_app. unfold dnsQueries.
  assert (H1 : length (List.filter isDNS (map (fun server => EvDNS server domain) servers))
               = length servers)
    by (induction servers; simpl; auto).
  assert (H2 : List.filter isDNS (map EvPing pings) = [])
    by (induction pings; simpl; auto).
  rewrite H1, H2. simpl. lia.
Qed.

Section PassFacts.
Context (W : World) (sort_Slice : SliceSorter).

Lemma processHost_counts (domain : string) (s : State) :
  httpRequests (processHost W sort_Slice domain s).2
    = (httpRequests s + if requestBuilt W domain then 1 else 0)%nat /\
  (dnsQueriesMade s + 1 <= dnsQueriesMade (processHost W sort_Slice domain s).2)%nat /\
  (dnsQueriesMade (processHost W sort_Slice domain s).2 <= dnsQueriesMade s + 4)%nat.
Proof.
  destruct (processHost_trace W sort_Slice domain s) as (n & pings & Hn & Htr).
  unfold httpRequests, dnsQueriesMade. rewrite Htr.
  rewrite (List.filter_app isHTTP (trace s)), (List.filter_app isDNS (trace s)).
  rewrite (List.filter_app isHTTP (webRequests W domain)),
          (List.filter_app isDNS (webRequests W domain)).
  destruct (webRequests_filter W domain) as (-> & -> & _ & Hlen).
  rewrite !length_app, filter_isHTTP_none, filter_isDNS_count, Hlen.
  rewrite length_take. change (length DNSServers) with 4%nat. simpl. lia.
Qed.

Lemma mapM_processHost_cons (domain : string) (domains : list string) (s : State) :
  mapM (processHost W sort_Slice) (domain :: domains) s =
    let '(r, s1) := processHost W sort_Slice domain s in
    let '(rs, s2) := mapM (processHost W sort_Slice) domains s1 in
    (r :: rs, s2).
Proof.
  simpl. unfold mbind, M_bind at 1.
  destruct (processHost W sort_Slice domain s) as [r s1].
  unfold mbind, M_bind at 1, mret, M_ret.
  destruct (mapM (processHost W sort_Slice) domains s1) as [rs s2]. reflexivity.
Qed.

Lemma mapM_processHost_counts (domains : list string) (s : State) :
  httpRequests (mapM (processHost W sort_Slice) domains s).2
    = (httpRequests s + countIf (requestBuilt W) domains)%nat /\
  (dnsQueriesMade s + length domains
   <= dnsQueriesMade (mapM (processHost W sort_Slice) domains s).2)%nat /\
  (dnsQueriesMade (mapM (processHost W sort_Slice) domains s).2
   <= dnsQueriesMade s + 4 * length domains)%nat.
Proof.
  revert s. induction domains as [|d domains IH]; intros s.
  - unfold countIf. simpl. lia.
  - rewrite mapM_processHost_cons.
    pose proof (processHost_counts d s) as (Hh & Hlo & Hhi).
    destruct (processHost W sort_Slice d s) as [r s1].
    specialize (IH s1). destruct IH as (IHh & IHlo & IHhi).
    destruct (mapM (processHost W sort_Slice) domains s1) as [rs s2].
    unfold countIf in *. simpl in *.
    destruct (requestBuilt W d); simpl; lia.
Qed.

(** X12. A pass over a readable file with at least one domain calls
    [client.Do] once for every listed domain whose URL [http.NewRequest]
    accepts and for no other, so at most once per domain, and calls
    [c.Exchange] at least once and at most four times per domain, whatever
    the answers and whatever the order in which the tasks run. *)
Theorem DetectHosts_network_footprint (hd : HostsDetector) (choices : list nat)
    (s : State) (lines : list string) :
  os_Open W (domainFile hd) (clock s) = inl (lines, None) ->
  scanDomains W lines <> [] ->
  httpRequests (DetectHosts W sort_Slice hd choices s).2
    = (httpRequests s + countIf (requestBuilt W) (scanDomains W lines))%nat /\
  (httpRequests (DetectHosts W sort_Slice hd choices s).2
   <= httpRequests s + length (scanDomains W lines))%nat /\
  (dnsQueriesMade s + length (scanDomains W lines)
   <= dnsQueriesMade (DetectHosts W sort_Slice hd choices s).2)%nat /\
  (dnsQueriesMade (DetectHosts W sort_Slice hd choices s).2
   <= dnsQueriesMade s + 4 * length (scanDomains W lines))%nat.
Proof.
  intros Hopen Hne.
  rewrite (DetectHosts_unfold W sort_Slice hd choices s lines Hopen Hne). simpl.
  pose proof (mapM_processHost_counts
                (deliveryOrder (length (scanDomains W lines)) choices (scanDomains W lines))
                s) as (Hhttp & Hlo & Hhi).
  rewrite (Permutation_length (deliveryOrder_perm choices (scanDomains W lines)))
    in Hlo, Hhi.
  rewrite (countIf_perm (requestBuilt W) _ _
             (deliveryOrder_perm choices (scanDomains W lines))) in Hhttp.
  split; [exact Hhttp|]. split; [|split; [exact Hlo|exact Hhi]].
  rewrite Hhttp. unfold countIf.
  pose proof (List.filter_length_le (requestBuilt W) (scanDomains W lines)). lia.
Qed.

(** X13. When the call of [sort.Slice] keeps the results it is given, a pass
    over a readable file with at least one domain returns no error and
    exactly one result for every line that names a domain, also when a
    domain is named more than once: the domains of the results are the
    domains of the file, up to their order. *)
Theorem DetectHosts_one_result_per_domain (hd : HostsDetector) (choices : list nat)
    (s : State) (lines : list string) :
  os_Open W (domainFile hd) (clock s) = inl (lines, None) ->
  scanDomains W lines <> [] ->
  Permutation
    (mapM (processHost W sort_Slice)
          (deliveryOrder (length (scanDomains W lines)) choices (scanDomains W lines)) s).1
    (sort_Slice HostResult (HostResult_less (domainOrderOf (scanDomains W lines)))
       (mapM (processHost W sort_Slice)
             (deliveryOrder (length (scanDomains W lines)) choices (scanDomains W lines))
             s).1) ->
  exists results,
    (DetectHosts W sort_Slice hd choices s).1 = (results, None) /\
    Permutation (map Domain results) (scanDomains W lines) /\
    length results = length (scanDomains W lines).
Proof.
  intros Hopen Hne Hperm.
  rewrite (DetectHosts_unfold W sort_Slice hd choices s lines Hopen Hne). simpl.
  eexists. split; [reflexivity|].
  assert (HpermD : Permutation
            (map Domain
               (sort_Slice HostResult (HostResult_less (domainOrderOf (scanDomains W lines)))
                  (mapM (processHost W sort_Slice)
                        (deliveryOrder (length (scanDomains W lines)) choices
                                       (scanDomains W lines)) s).1))
            (scanDomains W lines)).
  { rewrite <- (Permutation_map Domain Hperm), mapM_processHost_domains.
    apply deliveryOrder_perm. }
  split; [exact HpermD|].
  apply Permutation_length in HpermD. now rewrite length_map in HpermD.
Qed.
End PassFacts.

Lemma DetectHosts_network_footprint_witness :
  httpRequests (DetectHosts malformedWorld GoSort.Slice detector [1%nat] emptyState).2
    = 1%nat /\
  (2 <= dnsQueriesMade (DetectHosts malformedWorld GoSort.Slice detector [1%nat] emptyState).2
     <= 8)%nat.
Proof.
  destruct (DetectHosts_network_footprint malformedWorld GoSort.Slice detector [1%nat]
              emptyState ["a.example"; "%zz"]) as (Hh & _ & Hlo & Hhi).
  - reflexivity.
  - discriminate.
  - split; [exact Hh|]. split; [exact Hlo|exact Hhi].
Defined.

Lemma DetectHosts_one_result_per_domain_witness :
  exists results,
    (DetectHosts duplicateDomainWorld GoSort.Slice detector [2%nat] emptyState).1
      = (results, None) /\
    Permutation (map Domain results) ["a.example"; "b.example"; "a.example"] /\
    length results = 3%nat.
Proof.
  apply (DetectHosts_one_result_per_domain duplicateDomainWorld GoSort.Slice detector
           [2%nat] emptyState ["a.example"; "b.example"; "a.example"]).
  - reflexivity.
  - discriminate.
  - vm_compute. apply Permutation_sym. exact (Permutation_cons_append _ _).
Defined.

Lemma DetectHosts_order_distinct_witness :
  exists results,
    (DetectHosts sampleWorld GoSort.Slice detector [1%nat] emptyState).1 = (results, None) /\
    map Domain results = ["a.example"; "b.example"].
Proof.
  apply (DetectHosts_order_distinct sampleWorld GoSort.Slice detector [1%nat] emptyState
           ["a.example"; "# comment"; "b.example"]).
  - reflexivity.
  - discriminate.
  - apply (bool_decide_unpack _). vm_compute. exact I.
  - vm_compute. split; [apply perm_swap|repeat constructor].
Defined.

(** ** The callers of a pass: saving, rendering, and the service *)

Lemma append_not_empty (a b : string) : a <> "" -> a +:+ b <> "".
Proof. destruct a as [|c a]; [congruence|]. intros _. discriminate. Qed.

Lemma countSuccess_from (results : list HostResult) (n : nat) :
  (n <= foldl (fun successCount result =>
                 if String.eqb (Error result) "" then S successCount else successCount)
              n results
     <= n + length results)%nat.
Proof.
  revert n. induction results as [|r results IH]; intros n; simpl; [lia|].
  destruct (String.eqb (Error r) "").
  - specialize (IH (S n)). lia.
  - specialize (IH n). lia.
Qed.

Section CallerFacts.
Context (W : World) (sort_Slice : SliceSorter).

Lemma pingCached_files (ip : string) (s : State) :
  files (pingCached W ip s).2 = files s.
Proof.
  destruct (PingCache s !! ip) as [u|] eqn:Hcache.
  - now rewrite (pingCached_hit W ip s u Hcache).
  - destruct (ping_NewPinger W ip) as [err|] eqn:Hnew.
    + now rewrite (pingCached_no_pinger W ip s err Hcache Hnew).
    + now rewrite (pingCached_probe W ip s Hcache Hnew).
Qed.

Lemma processHost_files (domain : string) (s : State) :
  files (processHost W sort_Slice domain s).2 = files s.
Proof.
  destruct (afterSources_effect W domain s) as (n & _ & _ & _ & Hfiles).
  unfold processHost, mbind, M_bind. rewrite getBestIP_unfold.
  destruct (size (candidatesOf W domain s) =? 0)%nat; [exact Hfiles|].
  pose proof (selectBestIP_state W sort_Slice
                (GoSort.Strings (elements (candidatesOf W domain s)))
                (afterSources W domain s)) as Hstate.
  destruct (selectBestIP W sort_Slice _ (afterSources W domain s)) as [ip s1].
  simpl in Hstate.
  pose proof (pingCached_files ip s1) as Hping.
  destruct (pingCached W ip s1) as [ping s2]. simpl in *.
  rewrite Hping, Hstate.
  destruct (probeAll_probes W (GoSort.Strings (elements (candidatesOf W domain s)))
                            (afterSources W domain s)) as (probed & _ & _ & Hf & _).
  now rewrite Hf.
Qed.

Lemma mapM_processHost_files (domains : list string) (s : State) :
  files (mapM (processHost W sort_Slice) domains s).2 = files s.
Proof.
  revert s. induction domains as [|d domains IH]; intros s; [reflexivity|].
  rewrite mapM_processHost_cons.
  pose proof (processHost_files d s) as Hd.
  destruct (processHost W sort_Slice d s) as [r s1].
  specialize (IH s1).
  destruct (mapM (processHost W sort_Slice) domains s1) as [rs s2].
  simpl in *. congruence.
Qed.

Lemma processHost_cache_trace (domain : string) (s : State) :
  exists events, trace (processHost W sort_Slice domain s).2 = trace s ++ events.
Proof.
  destruct (processHost_trace W sort_Slice domain s) as (n & pings & _ & Htr).
  eexists. exact Htr.
Qed.

Lemma mapM_processHost_trace (domains : list string) (s : State) :
  exists events,
    trace (mapM (processHost W sort_Slice) domains s).2 = trace s ++ events.
Proof.
  revert s. induction domains as [|d domains IH]; intros s.
  - exists []. simpl. now rewrite app_nil_r.
  - rewrite mapM_processHost_cons.
    destruct (processHost_cache_trace d s) as (e1 & H1).
    destruct (processHost W sort_Slice d s) as [r s1].
    destruct (IH s1) as (e2 & H2).
    destruct (mapM (processHost W sort_Slice) domains s1) as [rs s2].
    simpl in *. exists (e1 ++ e2). now rewrite H2, H1, app_assoc.
Qed.

(** The two ways a pass ends: with an error and the state it was given, or
    with the sorted results of one task per domain. *)
Lemma DetectHosts_cases (hd : HostsDetector) (choices : list nat) (s : State) :
  (exists message, DetectHosts W sort_Slice hd choices s = ([], Some message, s)) \/
  (exists lines,
     os_Open W (domainFile hd) (clock s) = inl (lines, None) /\
     scanDomains W lines <> [] /\
     DetectHosts W sort_Slice hd choices s =
       (sort_Slice HostResult (HostResult_less (domainOrderOf (scanDomains W lines)))
          (mapM (processHost W sort_Slice)
                (deliveryOrder (length (scanDomains W lines)) choices (scanDomains W lines))
                s).1,
        None,
        (mapM (processHost W sort_Slice)
              (deliveryOrder (length (scanDomains W lines)) choices (scanDomains W lines))
              s).2)).
Proof.
  destruct (os_Open W (domainFile hd) (clock s)) as [[lines [err|]]|err] eqn:Hopen.
  - left. unfold DetectHosts, mbind, M_bind. rewrite readDomainFile_unfold, Hopen.
    eexists. reflexivity.
  - destruct (scanDomains W lines) as [|d ds] eqn:Hdom.
    + left. unfold DetectHosts, mbind, M_bind. rewrite readDomainFile_unfold, Hopen, Hdom.
      eexists. reflexivity.
    + right. exists lines. split; [reflexivity|].
      split; [rewrite Hdom; discriminate|].
      apply DetectHosts_unfold; [exact Hopen|rewrite Hdom; discriminate].
  - left. unfold DetectHosts, mbind, M_bind. rewrite readDomainFile_unfold, Hopen.
    eexists. reflexivity.
Qed.

Lemma DetectHosts_files (hd : HostsDetector) (choices : list nat) (s : State) :
  files (DetectHosts W sort_Slice hd choices s).2 = files s.
Proof.
  destruct (DetectHosts_cases hd choices s) as [(message & ->)|(lines & _ & _ & ->)].
  - reflexivity.
  - apply mapM_processHost_files.
Qed.

Lemma DetectHosts_error_state (hd : HostsDetector) (choices : list nat) (s : State)
    (e : string) :
  (DetectHosts W sort_Slice hd choices s).1.2 = Some e ->
  (DetectHosts W sort_Slice hd choices s).2 = s.
Proof.
  destruct (DetectHosts_cases hd choices s) as [(message & ->)|(lines & _ & _ & ->)].
  - reflexivity.
  - discriminate.
Qed.

(** X14. A pass reads and never writes: whatever the domain file, the
    network and the schedule, [DetectHosts] leaves every file as it was, and
    the log of network operations it leaves extends the one it found. *)
Theorem DetectHosts_writes_no_file (hd : HostsDetector) (choices : list nat) (s : State) :
  files (DetectHosts W sort_Slice hd choices s).2 = files s /\
  exists events, trace (DetectHosts W sort_Slice hd choices s).2 = trace s ++ events.
Proof.
  split; [apply DetectHosts_files|].
  destruct (DetectHosts_cases hd choices s) as [(message & ->)|(lines & _ & _ & ->)].
  - exists []. simpl. now rewrite app_nil_r.
  - apply mapM_processHost_trace.
Qed.

(** X15. [WriteHostsFile] touches nothing but the output file: every other
    file, the latency cache and the log of network operations are as
    before, whether or not the file could be created. *)
Theorem WriteHostsFile_frame (hd : HostsDetector) (currentTime : string)
    (results : list HostResult) (s : State) :
  delete (outputFile hd) (files (WriteHostsFile W hd currentTime results s).2)
    = delete (outputFile hd) (files s) /\
  PingCache (WriteHostsFile W hd currentTime results s).2 = PingCache s /\
  trace (WriteHostsFile W hd currentTime results s).2 = trace s.
Proof.
  unfold WriteHostsFile, mbind, M_bind, now, fileStore. simpl.
  destruct (os_Create W (outputFile hd) (clock s)) as [e|]; simpl.
  - repeat split.
  - split; [|split; reflexivity]. apply delete_insert_eq.
Qed.

Lemma WriteHostsFile_outcome (hd : HostsDetector) (currentTime : string)
    (results : list HostResult) (s : State) :
  (WriteHostsFile W hd currentTime results s).1 = os_Create W (outputFile hd) (clock s) /\
  delete (outputFile hd) (files (WriteHostsFile W hd currentTime results s).2)
    = delete (outputFile hd) (files s).
Proof.
  unfold WriteHostsFile, mbind, M_bind, now, fileStore. simpl.
  destruct (os_Create W (outputFile hd) (clock s)) as [e|]; simpl.
  - split; reflexivity.
  - split; [reflexivity|]. apply delete_insert_eq.
Qed.

(** X16. What [DetectAndSave] touches and what its result tells.  Whatever
    happens, no file but the output file is changed.  When the pass fails,
    its error is returned as it is and nothing has been done: the output
    file is not even opened.  The result is [nil] exactly when the pass
    gave results without an error and the output file could be created;
    errors of the writes to the file are not looked at by the code and do
    not show in the result. *)
Theorem DetectAndSave_touches_output_only (hd : HostsDetector) (choices : list nat)
    (currentTime : string) (s : State) :
  delete (outputFile hd) (files (DetectAndSave W sort_Slice hd choices currentTime s).2)
    = delete (outputFile hd) (files s) /\
  (forall e, (DetectHosts W sort_Slice hd choices s).1.2 = Some e ->
             DetectAndSave W sort_Slice hd choices currentTime s = (Some e, s)) /\
  ((DetectAndSave W sort_Slice hd choices currentTime s).1 = None <->
   (DetectHosts W sort_Slice hd choices s).1.2 = None /\
   os_Create W (outputFile hd) (clock (DetectHosts W sort_Slice hd choices s).2) = None).
Proof.
  unfold DetectAndSave, mbind, M_bind.
  pose proof (DetectHosts_files hd choices s) as Hfiles.
  pose proof (DetectHosts_error_state hd choices s) as Herr.
  destruct (DetectHosts W sort_Slice hd choices s) as [[results [e|]] s1];
    cbn [fst snd] in *; unfold mret, M_ret.
  - cbn [fst snd]. split; [now rewrite Hfiles|]. split.
    + intros e' [= <-]. now rewrite (Herr e eq_refl).
    + split; [discriminate|intros [H _]; discriminate H].
  - destruct (WriteHostsFile_outcome hd currentTime results s1) as [Hres Hframe].
    destruct (WriteHostsFile W hd currentTime results s1) as [[e|] s2];
      cbn [fst snd] in *.
    + split; [now rewrite Hframe, Hfiles|]. split; [discriminate|].
      split; [discriminate|]. intros [_ Hcreate]. congruence.
    + split; [now rewrite Hframe, Hfiles|]. split; [discriminate|].
      split; [auto|reflexivity].
Qed.

(** X17. A failed save is reported with the prefix of [DetectAndSave]: when
    the pass succeeds and the output file cannot be created, the error is
    the text "写入hosts文件失败: " followed by the error of [os.Create]; the
    network operations of the pass have been made all the same. *)
Theorem DetectAndSave_create_failure (hd : HostsDetector) (choices : list nat)
    (currentTime : string) (s : State) (results : list HostResult) (e : string) :
  (DetectHosts W sort_Slice hd choices s).1 = (results, None) ->
  os_Create W (outputFile hd) (clock (DetectHosts W sort_Slice hd choices s).2) = Some e ->
  DetectAndSave W sort_Slice hd choices currentTime s
    = (Some ("写入hosts文件失败: " +:+ e), (DetectHosts W sort_Slice hd choices s).2).
Proof.
  unfold DetectAndSave, mbind, M_bind.
  destruct (DetectHosts W sort_Slice hd choices s) as [[results' err] s1]. simpl.
  intros [= -> ->] Hcreate.
  unfold WriteHostsFile, mbind, M_bind, now. simpl. rewrite Hcreate. reflexivity.
Qed.

(** X18. [GetHostsContent] writes no file, and its text is empty exactly
    when it returns an error. *)
Theorem GetHostsContent_text_or_error (hd : HostsDetector) (choices : list nat)
    (currentTime : string) (s : State) :
  files (GetHostsContent W sort_Slice hd choices currentTime s).2 = files s /\
  ((GetHostsContent W sort_Slice hd choices currentTime s).1.1 = "" <->
   (GetHostsContent W sort_Slice hd choices currentTime s).1.2 <> None).
Proof.
  unfold GetHostsContent, mbind, M_bind.
  pose proof (DetectHosts_files hd choices s) as Hfiles.
  destruct (DetectHosts W sort_Slice hd choices s) as [[results [e|]] s1]; simpl in *.
  - split; [exact Hfiles|]. split; [discriminate|reflexivity].
  - split; [exact Hfiles|]. split; [|congruence].
    unfold GenerateHostsContent. rewrite render_lines.
    intros Hempty. exfalso. revert Hempty. apply append_not_empty. discriminate.
Qed.

(** X19. The reply of [getHosts].  Without data it is a 500 with no header,
    and the state of the process is as before the request.  With data it is
    a 200 whose [Results] are those of the pass, whose [Total] is their
    number, whose [Success] is at most [Total], and whose [Content] is the
    rendering of the results with the first timestamp; the header
    [X-Save-Error] is set, with the error of [os.Create], exactly when the
    output file could not be created, and no file but the output file is
    changed. *)
Theorem getHosts_reply (hd : HostsDetector) (choices : list nat)
    (contentTime saveTime updatedAt : string) (s : State) :
  let reply := (getHosts W sort_Slice hd choices contentTime saveTime updatedAt s).1 in
  let s' := (getHosts W sort_Slice hd choices contentTime saveTime updatedAt s).2 in
  match Data (replyBody reply) with
  | None =>
      replyStatus reply = 500%nat /\ Code (replyBody reply) = 500%nat /\
      replyHeaders reply = [] /\ s' = s
  | Some data =>
      replyStatus reply = 200%nat /\ Code (replyBody reply) = 200%nat /\
      (DetectHosts W sort_Slice hd choices s).1 = (Results data, None) /\
      Total data = length (Results data) /\
      (Success data <= Total data)%nat /\
      Content data = GenerateHostsContent W hd contentTime (Results data) /\
      replyHeaders reply =
        match os_Create W (outputFile hd)
                        (clock (DetectHosts W sort_Slice hd choices s).2) with
        | Some e => [("X-Save-Error", e)]
        | None => []
        end /\
      delete (outputFile hd) (files s') = delete (outputFile hd) (files s)
  end.
Proof.
  unfold getHosts, mbind, M_bind.
  pose proof (DetectHosts_files hd choices s) as Hfiles.
  pose proof (DetectHosts_error_state hd choices s) as Herr.
  destruct (DetectHosts W sort_Slice hd choices s) as [[results [e|]] s1];
    cbn [fst snd] in *.
  - simpl. repeat split. now apply (Herr e).
  - destruct (WriteHostsFile_outcome hd saveTime results s1) as [Hres Hframe].
    destruct (WriteHostsFile W hd saveTime results s1) as [[e|] s2];
      cbn [fst snd] in *; rewrite <- Hres; simpl.
    + split; [reflexivity|]. split; [reflexivity|]. split; [reflexivity|].
      split; [reflexivity|]. split; [apply (countSuccess_from results 0)|].
      split; [reflexivity|]. split; [reflexivity|]. now rewrite Hframe, Hfiles.
    + split; [reflexivity|]. split; [reflexivity|]. split; [reflexivity|].
      split; [reflexivity|]. split; [apply (countSuccess_from results 0)|].
      split; [reflexivity|]. split; [reflexivity|]. now rewrite Hframe, Hfiles.
Qed.
End CallerFacts.

(** X20. The address [Start] listens on always begins with a colon, an
    empty port stands for ":8080", and an address that [Start] has produced
    is passed through unchanged. *)
Theorem listenAddress_colon (port : string) :
  String.prefix ":" (listenAddress port) = true /\
  listenAddress "" = ":8080" /\
  listenAddress (listenAddress port) = listenAddress port /\
  (String.prefix ":" port = true -> listenAddress port = port).
Proof.
  assert (Hfix : forall p, String.prefix ":" p = true -> listenAddress p = p).
  { intros p Hp. unfold listenAddress.
    destruct p as [|a p]; [discriminate|].
    change (String.eqb (String a p) "") with false. cbv iota. now rewrite Hp. }
  assert (Hcolon : String.prefix ":" (listenAddress port) = true).
  { unfold listenAddress. destruct port as [|a port]; [reflexivity|].
    change (String.eqb (String a port) "") with false. cbv iota.
    destruct (String.prefix ":" (String a port)) eqn:Hp; [exact Hp|].
    simpl negb. cbv iota.
    change (":" +:+ String a port) with (String (Ascii.ascii_of_nat 58) (String a port)).
    change (String.prefix ":" (String (Ascii.ascii_of_nat 58) (String a port)))
      with (if Ascii.ascii_dec (Ascii.ascii_of_nat 58) (Ascii.ascii_of_nat 58)
            then String.prefix "" (String a port) else false).
    destruct (Ascii.ascii_dec (Ascii.ascii_of_nat 58) (Ascii.ascii_of_nat 58));
      [reflexivity|congruence]. }
  split; [exact Hcolon|]. split; [reflexivity|]. split; [now apply Hfix|apply Hfix].
Qed.

Lemma DetectAndSave_create_failure_witness :
  DetectAndSave (mkWorld (fun _ => true) (fun _ => None) (fun _ _ => (None, []))
                         (fun _ => None) (fun _ _ => inr "offline") (fun _ => []) (fun _ _ _ => None)
                         (fun _ _ => inl (["a.example"], None))
                         (fun _ _ => Some "permission denied")
                         (fun s => s) String.length)
                GoSort.Slice detector [] "2025-08-28 14:46:48" emptyState
    = (Some "写入hosts文件失败: permission denied",
       mkState ∅ ∅
         (EvHTTP "https://sites.ipaddress.com/a.example"
          :: dnsQueries DNSServers "a.example")).
Proof.
  rewrite (DetectAndSave_create_failure _ GoSort.Slice detector [] "2025-08-28 14:46:48"
             emptyState
             [mkHostResult "a.example" "# IP Address Not Found" 0 "未找到有效IP地址"]
             "permission denied").
  - reflexivity.
  - reflexivity.
  - reflexivity.
Defined.

(** ** The worker pool: sends never block, no deadlock, no result lost *)

Lemma sentResults_app (ts : list (string * Phase)) (d : string) (ph : Phase) :
  sentResults (ts ++ [(d, ph)]) =
    sentResults ts ++ if decide (ph = Reported \/ ph = Finished) then [d] else [].
Proof.
  unfold sentResults. rewrite filter_app, map_app. f_equal.
  rewrite filter_cons. simpl.
  destruct (decide (ph = Reported \/ ph = Finished)); reflexivity.
Qed.

Lemma sentResults_insert_same (ts : list (string * Phase)) (i : nat) (d : string)
    (old new : Phase) :
  ts !! i = Some (d, old) ->
  (old = Reported \/ old = Finished <-> new = Reported \/ new = Finished) ->
  sentResults (<[i := (d, new)]> ts) = sentResults ts.
Proof.
  unfold sentResults. revert i.
  induction ts as [|t ts IH]; intros [|i] Hi Hsame; try discriminate.
  - simpl in Hi. injection Hi as ->. simpl. rewrite !filter_cons. simpl.
    destruct (decide (old = Reported \/ old = Finished)),
             (decide (new = Reported \/ new = Finished)); try reflexivity; tauto.
  - simpl in Hi. simpl. rewrite !filter_cons.
    destruct (decide (t.2 = Reported \/ t.2 = Finished)); simpl;
      now rewrite (IH i Hi Hsame).
Qed.

Lemma sentResults_insert_sent (ts : list (string * Phase)) (i : nat) (d : string) :
  ts !! i = Some (d, Processing) ->
  Permutation (sentResults (<[i := (d, Reported)]> ts)) (d :: sentResults ts).
Proof.
  unfold sentResults. revert i.
  induction ts as [|t ts IH]; intros [|i] Hi; try discriminate.
  - simpl in Hi. injection Hi as ->. simpl. rewrite !filter_cons. simpl.
    destruct (decide (Reported = Reported \/ Reported = Finished)) as [_|Hn];
      [|exfalso; apply Hn; now left].
    destruct (decide (Processing = Reported \/ Processing = Finished)) as [[H|H]|_];
      try discriminate H.
    reflexivity.
  - simpl in Hi. simpl. rewrite !filter_cons.
    destruct (decide (t.2 = Reported \/ t.2 = Finished)); simpl.
    + rewrite (IH i Hi). apply perm_swap.
    + exact (IH i Hi).
Qed.

Lemma tasks_insert_domains (ts : list (string * Phase)) (i : nat) (d : string)
    (old new : Phase) :
  ts !! i = Some (d, old) -> map fst (<[i := (d, new)]> ts) = map fst ts.
Proof.
  revert i. induction ts as [|t ts IH]; intros [|i] Hi; try discriminate.
  - simpl in Hi. injection Hi as ->. reflexivity.
  - simpl in Hi. simpl. now rewrite (IH i Hi).
Qed.

Lemma sentResults_short (ts : list (string * Phase)) (i : nat) (d : string) (ph : Phase) :
  ts !! i = Some (d, ph) -> ph <> Reported -> ph <> Finished ->
  (length (sentResults ts) < length ts)%nat.
Proof.
  unfold sentResults. intros Hi Hr Hf. rewrite length_map.
  revert i Hi. induction ts as [|t ts IH]; intros [|i] Hi; try discriminate.
  - simpl in Hi. injection Hi as ->. rewrite filter_cons. simpl.
    destruct (decide (ph = Reported \/ ph = Finished)) as [[H|H]|_]; try contradiction.
    pose proof (length_filter (fun t : string * Phase => t.2 = Reported \/ t.2 = Finished) ts).
    simpl. lia.
  - simpl in Hi. specialize (IH i Hi). rewrite filter_cons.
    destruct (decide (t.2 = Reported \/ t.2 = Finished)); simpl; lia.
Qed.

Lemma sentResults_all (ts : list (string * Phase)) :
  Forall (fun t => t.2 = Finished) ts -> sentResults ts = map fst ts.
Proof.
  unfold sentResults. induction 1 as [|t ts Ht _ IH]; [reflexivity|].
  rewrite filter_cons.
  destruct (decide (t.2 = Reported \/ t.2 = Finished)) as [_|Hn];
    [|exfalso; apply Hn; now right].
  simpl. now rewrite IH.
Qed.

Lemma countPhase_member (ph : Phase) (ts : list (string * Phase)) :
  (0 < countPhase ph ts)%nat <-> exists i d, ts !! i = Some (d, ph).
Proof.
  unfold countPhase. induction ts as [|[d' ph'] ts IH].
  - split; [simpl; lia|]. intros (i & d & Hi). destruct i; discriminate.
  - rewrite filter_cons. simpl. destruct (decide (ph' = ph)) as [->|Hne].
    + split; [|simpl; lia]. intros _. exists 0%nat, d'. reflexivity.
    + rewrite IH. split.
      * intros (i & d & Hi). exists (S i), d. exact Hi.
      * intros ([|i] & d & Hi); simpl in Hi; [congruence|]. exists i, d. exact Hi.
Qed.

Lemma poolStep_ledger (domains : list string) (a : Action) (p p' : Pool) :
  poolLedger domains p -> poolStep a p = Some p' -> poolLedger domains p'.
Proof.
  unfold poolLedger. intros (Hcap & Hdom & Hsent) Hstep.
  destruct a as [|i|i|i|]; simpl in Hstep.
  - destruct (unspawned p) as [|d ds]; [discriminate|]. injection Hstep as <-. simpl.
    split; [exact Hcap|]. split.
    + rewrite map_app, <- app_assoc. exact Hdom.
    + rewrite sentResults_app.
      destruct (decide (Waiting = Reported \/ Waiting = Finished)) as [[H|H]|_];
        try discriminate H.
      now rewrite app_nil_r.
  - destruct (tasks p !! i) as [[d ph]|] eqn:Hi; [|discriminate].
    destruct ph; try discriminate.
    destruct (semaphore p <? MaxConcurrent)%nat; [|discriminate].
    injection Hstep as <-. simpl. unfold setPhase. rewrite Hi.
    split; [exact Hcap|]. split.
    + now rewrite (tasks_insert_domains _ _ _ _ _ Hi).
    + rewrite (sentResults_insert_same _ _ _ _ _ Hi); [exact Hsent|].
      split; intros [H|H]; discriminate H.
  - destruct (tasks p !! i) as [[d ph]|] eqn:Hi; [|discriminate].
    destruct ph; try discriminate.
    destruct (length (resultChan p) <? capacity p)%nat; [|discriminate].
    injection Hstep as <-. simpl. unfold setPhase. rewrite Hi.
    split; [exact Hcap|]. split.
    + now rewrite (tasks_insert_domains _ _ _ _ _ Hi).
    + rewrite (sentResults_insert_sent _ _ _ Hi), app_assoc.
      apply Permutation_sym. rewrite <- Hsent. apply Permutation_cons_append.
  - destruct (tasks p !! i) as [[d ph]|] eqn:Hi; [|discriminate].
    destruct ph; try discriminate.
    destruct (0 <? semaphore p)%nat; [|discriminate].
    injection Hstep as <-. simpl. unfold setPhase. rewrite Hi.
    split; [exact Hcap|]. split.
    + now rewrite (tasks_insert_domains _ _ _ _ _ Hi).
    + rewrite (sentResults_insert_same _ _ _ _ _ Hi); [exact Hsent|].
      split; intros _; [now right|now left].
  - destruct (resultChan p) as [|d rest]; [discriminate|]. injection Hstep as <-. simpl.
    split; [exact Hcap|]. split; [exact Hdom|].
    rewrite <- app_assoc. exact Hsent.
Qed.

Lemma poolRun_ledger (domains : list string) (actions : list Action) (p p' : Pool) :
  poolLedger domains p -> poolRun actions p = Some p' -> poolLedger domains p'.
Proof.
  revert p. induction actions as [|a actions IH]; intros p Hinv Hrun; simpl in Hrun.
  - now injection Hrun as <-.
  - destruct (poolStep a p) as [p1|] eqn:Hstep; [|discriminate].
    eapply IH; [|exact Hrun]. eapply poolStep_ledger; eassumption.
Qed.

Lemma initialPool_ledger (domains : list string) :
  poolLedger domains (initialPool domains) /\ poolInvariant (initialPool domains).
Proof.
  unfold poolLedger, poolInvariant, MaxConcurrent. simpl.
  split; [split; [reflexivity|split; [reflexivity|constructor]]|split; [reflexivity|lia]].
Qed.

Lemma reachable_pool (domains : list string) (actions : list Action) (p : Pool) :
  poolRun actions (initialPool domains) = Some p ->
  poolLedger domains p /\ poolInvariant p.
Proof.
  intros Hrun. destruct (initialPool_ledger domains) as [Hl Hi]. split.
  - eapply poolRun_ledger; eassumption.
  - eapply poolRun_invariant; eassumption.
Qed.

Lemma Report_enabled (domains : list string) (p : Pool) (i : nat) (d : string) :
  poolLedger domains p -> tasks p !! i = Some (d, Processing) ->
  is_Some (poolStep (Report i) p).
Proof.
  intros (Hcap & Hdom & Hsent) Hi. simpl. rewrite Hi.
  assert (Hroom : (length (resultChan p) <? capacity p)%nat = true).
  { apply Nat.ltb_lt.
    pose proof (sentResults_short _ _ _ _ Hi) as Hshort.
    apply Permutation_length in Hsent. rewrite length_app in Hsent.
    apply (f_equal (@length string)) in Hdom. rewrite length_app, length_map in Hdom.
    assert (length (sentResults (tasks p)) < length (tasks p))%nat
      by (apply Hshort; discriminate).
    lia. }
  rewrite Hroom. eexists. reflexivity.
Qed.

Lemma Release_enabled (p : Pool) (i : nat) (d : string) :
  poolInvariant p -> tasks p !! i = Some (d, Reported) ->
  is_Some (poolStep (Release i) p).
Proof.
  intros [Hcount _] Hi. simpl. rewrite Hi.
  assert (Hheld : (0 <? semaphore p)%nat = true).
  { apply Nat.ltb_lt.
    assert (0 < inPhase Reported p)%nat
      by (apply countPhase_member; exists i, d; exact Hi).
    lia. }
  rewrite Hheld. eexists. reflexivity.
Qed.

(** X21. The two channel operations that follow the work of a goroutine
    never block.  In every pool a pass can reach, a goroutine that is inside
    [processHost] can send its result, because [resultChan] has a place for
    every domain, and a goroutine that has sent its result can take its
    token back from [semaphore]. *)
Theorem pool_sends_never_block (domains : list string) (actions : list Action)
    (p : Pool) (i : nat) (d : string) :
  poolRun actions (initialPool domains) = Some p ->
  (tasks p !! i = Some (d, Processing) -> is_Some (poolStep (Report i) p)) /\
  (tasks p !! i = Some (d, Reported) -> is_Some (poolStep (Release i) p)).
Proof.
  intros Hrun. destruct (reachable_pool domains actions p Hrun) as [Hl Hinv]. split.
  - now apply (Report_enabled domains).
  - now apply Release_enabled.
Qed.

(** X22. The pool cannot deadlock: in every pool a pass can reach, either
    the pass is over (every goroutine has given its token back and
    [resultChan] is drained) or some step of some goroutine is enabled. *)
Theorem pool_deadlock_free (domains : list string) (actions : list Action) (p : Pool) :
  poolRun actions (initialPool domains) = Some p ->
  poolDone p \/ exists a, is_Some (poolStep a p).
Proof.
  intros Hrun. destruct (reachable_pool domains actions p Hrun) as [Hl Hinv].
  destruct (unspawned p) as [|d0 ds] eqn:Hun;
    [|right; exists Spawn; simpl; rewrite Hun; eexists; reflexivity].
  destruct (resultChan p) as [|d0 rest] eqn:Hchan;
    [|right; exists Collect; simpl; rewrite Hchan; eexists; reflexivity].
  destruct (decide (Forall (fun t : string * Phase => t.2 = Finished) (tasks p)))
    as [Hall|Hsome].
  - left. split; [exact Hun|]. split; [exact Hchan|exact Hall].
  - right. apply not_Forall_Exists in Hsome; [|intros t; apply _].
    apply Exists_exists in Hsome. destruct Hsome as ([d ph] & Hin & Hph).
    apply list_elem_of_lookup in Hin. destruct Hin as [i Hi]. simpl in Hph.
    destruct ph.
    + destruct (semaphore p <? MaxConcurrent)%nat eqn:Hfree.
      * exists (Acquire i). simpl. rewrite Hi, Hfree. eexists. reflexivity.
      * apply Nat.ltb_ge in Hfree. destruct Hinv as [Hcount Hbound].
        assert (Hbusy : (0 < inPhase Processing p \/ 0 < inPhase Reported p)%nat)
          by (unfold MaxConcurrent in *; lia).
        destruct Hbusy as [Hb|Hb]; apply countPhase_member in Hb;
          destruct Hb as (j & dj & Hj).
        -- exists (Report j). now apply (Report_enabled domains p j dj).
        -- exists (Release j). apply (Release_enabled p j dj); [split|]; assumption.
    + exists (Report i). now apply (Report_enabled domains p i d).
    + exists (Release i). now apply (Release_enabled p i d).
    + now contradiction Hph.
Qed.

(** X23. No result is lost or received twice.  In every pool a pass can
    reach, the results received together with those waiting in [resultChan]
    are the results of the goroutines that have sent one; and when the pass
    is over, the results received are those of the domains of the file, one
    for each entry. *)
Theorem pool_collects_each_once (domains : list string) (actions : list Action)
    (p : Pool) :
  poolRun actions (initialPool domains) = Some p ->
  Permutation (collected p ++ resultChan p) (sentResults (tasks p)) /\
  (length (collected p) <= length domains)%nat /\
  (poolDone p -> Permutation (collected p) domains).
Proof.
  intros Hrun. destruct (reachable_pool domains actions p Hrun) as [Hl _].
  destruct Hl as (Hcap & Hdom & Hsent).
  split; [exact Hsent|]. split.
  - pose proof (Permutation_length Hsent) as Hlen. rewrite length_app in Hlen.
    unfold sentResults in Hlen. rewrite length_map in Hlen.
    pose proof (length_filter (fun t : string * Phase => t.2 = Reported \/ t.2 = Finished)
                              (tasks p)) as Hle.
    apply (f_equal (@length string)) in Hdom. rewrite length_app, length_map in Hdom.
    lia.
  - intros (Hun & Hchan & Hall).
    rewrite Hchan, app_nil_r in Hsent. rewrite Hun, app_nil_r in Hdom.
    rewrite Hsent, (sentResults_all _ Hall), Hdom. reflexivity.
Qed.

Lemma pool_sends_never_block_witness :
  exists p,
    poolRun fullLoad (initialPool elevenDomains) = Some p /\
    length (resultChan p) = 0%nat /\
    is_Some (poolStep (Report 3) p).
Proof.
  eexists. split; [vm_compute; reflexivity|]. split; [reflexivity|].
  apply (pool_sends_never_block elevenDomains fullLoad _ 3 "d3"); reflexivity.
Defined.

Lemma pool_deadlock_free_witness :
  exists p,
    poolRun completeRun (initialPool threeDomains) = Some p /\
    (poolDone p \/ exists a, is_Some (poolStep a p)).
Proof.
  eexists. split; [vm_compute; reflexivity|].
  apply (pool_deadlock_free threeDomains completeRun). reflexivity.
Defined.

Lemma pool_collects_each_once_witness :
  exists p,
    poolRun completeRun (initialPool threeDomains) = Some p /\
    collected p = ["c.example"; "a.example"; "b.example"] /\
    Permutation (collected p) threeDomains.
Proof.
  eexists. split; [vm_compute; reflexivity|]. split; [reflexivity|].
  apply (pool_collects_each_once threeDomains completeRun); [reflexivity|].
  split; [reflexivity|]. split; [reflexivity|]. repeat constructor.
Defined.
